(** * Transfer service: a shallow embedding of [TransferService]

    The development follows the TypeScript class [TransferService]
    (initiateTransfer, initiateTransferWithRetry, buildFilter, find).
    The database is an explicit store, a transaction works on a private copy
    of it that is installed on commit, exceptions are a [Throw] result, and
    every call to a collaborator is recorded in a trace of events. *)

From stdpp Require Import gmap strings list fin_maps sorting.
From Equations Require Import Equations.
From Stdlib Require Import ZArith Lia Ascii.

Local Open Scope Z_scope.

(** ** Entities *)

Record Account := mkAccount { acc_id : Z; balance : Z }.

(** The user entity with its [account] relation loaded. *)
Record User := mkUser { user_id : Z; username : string; account : Account }.

Record Transfer := mkTransfer {
  reference : string;
  sender : User;
  receiver : User;
  amount : Z;
  balanceBefore : Z;
  balanceAfter : Z;
  createdAt : Z
}.

Record InitiateTransferInput := mkInput {
  inp_sender : Z;
  inp_amount : Z;
  inp_receiver : string
}.

(** ** The datastore *)

Record UserRow := mkUserRow { row_username : string; row_account : Z }.

Record Store := mkStore {
  users : gmap Z UserRow;
  accounts : gmap Z Z;
  transfers : list Transfer
}.

(** ** Exceptions *)

Inductive Error :=
| BadRequestException (message : string)
| InsufficientFunds
| AccountNotFound
| QueryFailedError (code : string)
| TypeError.

(** [error.code]: only driver errors carry an SQLSTATE. *)
Definition error_code (e : Error) : option string :=
  match e with
  | QueryFailedError c => Some c
  | _ => None
  end.

(** [error.code === '40001'] *)
Definition code_is (c : string) (e : Error) : bool :=
  match error_code e with
  | Some c' => bool_decide (c' = c)
  | None => false
  end.

Inductive Result (A : Type) :=
| Ok (a : A)
| Throw (e : Error).
Arguments Ok {A} a.
Arguments Throw {A} e.

(** ** Events and the world *)

Inductive Event :=
| EvBegin
| EvFindByUserId (id : Z)
| EvFindByUsername (handle : string)
| EvDebit (acc : Z) (amt : Z)
| EvCredit (acc : Z) (amt : Z)
| EvGenerate (len : nat)
| EvSave (ref : string)
| EvCommit
| EvRollback
| EvSleep (ms : Z).

(** The points of a transaction at which the datastore can abort it. *)
Inductive Step := AtDebit | AtCredit | AtSave | AtCommit.

Record World := mkWorld {
  committed : Store;   (* what every connection observes *)
  working : Store;     (* the view of the open transaction's manager *)
  trace : list Event;  (* calls made so far, oldest first *)
  rng : nat;           (* position in the stream of random bytes *)
  txseq : nat;         (* transactions finished so far *)
  clock : Z            (* milliseconds *)
}.

Definition log (e : Event) (w : World) : World :=
  mkWorld (committed w) (working w) (trace w ++ [e]) (rng w) (txseq w) (clock w).

Definition set_working (s : Store) (w : World) : World :=
  mkWorld (committed w) s (trace w) (rng w) (txseq w) (clock w).

Definition set_committed (s : Store) (w : World) : World :=
  mkWorld s (working w) (trace w) (rng w) (txseq w) (clock w).

Definition set_rng (p : nat) (w : World) : World :=
  mkWorld (committed w) (working w) (trace w) p (txseq w) (clock w).

Definition end_tx (w : World) : World :=
  mkWorld (committed w) (working w) (trace w) (rng w) (S (txseq w)) (clock w).

Definition tick (ms : Z) (w : World) : World :=
  mkWorld (committed w) (working w) (trace w) (rng w) (txseq w) (clock w + ms).

(** ** The monad of the service's async methods *)

Definition M (A : Type) : Type := World -> Result A * World.

Definition ret {A} (a : A) : M A := fun w => (Ok a, w).

Definition throw {A} (e : Error) : M A := fun w => (Throw e, w).

Definition bind {A B} (m : M A) (k : A -> M B) : M B := fun w =>
  match m w with
  | (Ok a, w') => k a w'
  | (Throw e, w') => (Throw e, w')
  end.

Declare Scope tx_scope.
Delimit Scope tx_scope with tx.
Notation "x <- m ;; k" := (bind m (fun x => k))
  (at level 100, m at next level, right associativity) : tx_scope.
Notation "m ;;; k" := (bind m (fun _ => k))
  (at level 100, right associativity) : tx_scope.

(** [try { body } catch (error) { handler }] *)
Definition try_catch {A} (body : M A) (handler : Error -> M A) : M A := fun w =>
  match body w with
  | (Ok a, w') => (Ok a, w')
  | (Throw e, w') => handler e w'
  end.

(** Property access on a possibly null entity. *)
Definition deref {A} (o : option A) : M A :=
  match o with
  | Some a => ret a
  | None => throw TypeError
  end.

(** ** Collaborators *)

Class UserService := {
  findByUserId : Z -> Store -> option User;
  findByUsername : string -> bool -> Store -> option User
}.

Class AccountService := {
  debitAccount : Z -> Z -> Store -> Error + Account * Store;
  creditAccount : Z -> Z -> Store -> Error + Account * Store
}.

(** [randomstring]'s alphanumeric charset. *)
Definition alphanumeric : list ascii :=
  String.list_ascii_of_string
    "0123456789abcdefghijklmnopqrstuvwxyzABCDEFGHIJKLMNOPQRSTUVWXYZ".

(** A digit or an unaccented latin letter, by its character code. *)
Definition is_alphanumeric (c : ascii) : bool :=
  let n := nat_of_ascii c in
  ((48 <=? n) && (n <=? 57) || (65 <=? n) && (n <=? 90)
   || (97 <=? n) && (n <=? 122))%nat.

Local Open Scope nat_scope.

(** ** The random source

    The generator below reads bytes and throws away those from 248 up.
    The source is given as the sequence of the bytes it keeps, each with
    the number of thrown-away bytes that come before it: entry [i] of the
    tape stands for [tape i / 248] bytes of value 255 followed by the byte
    [tape i mod 248]. Every stream of bytes in which a byte below 248
    always comes again is of this form (which of the values 248..255 a
    thrown-away byte has makes no difference to the generator); a stream
    that ends in thrown-away bytes only, on which the generator would read
    for ever, is not. *)

(** A place in the stream: the entry, and the thrown-away bytes still to
    come before its kept byte. *)
Definition Cursor : Type := nat * nat.

Definition start (tape : nat -> nat) : Cursor := (0, tape 0 / 248).

Definition step (tape : nat -> nat) (c : Cursor) : Cursor :=
  match c with
  | (i, 0) => (S i, tape (S i) / 248)
  | (i, S k) => (i, k)
  end.

Fixpoint seek (tape : nat -> nat) (c : Cursor) (n : nat) : Cursor :=
  match n with
  | 0 => c
  | S n' => seek tape (step tape c) n'
  end.

Definition byte_at (tape : nat -> nat) (c : Cursor) : nat :=
  match c with
  | (i, 0) => tape i mod 248
  | (_, S _) => 255
  end.

(** The byte at position [p] of the stream. *)
Definition raw (tape : nat -> nat) (p : nat) : nat :=
  byte_at tape (seek tape (start tape) p).

(** The number of bytes from a place up to the [len]-th kept byte. *)
Fixpoint reach (tape : nat -> nat) (c : Cursor) (len : nat) : nat :=
  match len with
  | 0 => 0
  | S len' =>
      snd c + 1 + reach tape (S (fst c), tape (S (fst c)) / 248) len'
  end.

Definition horizon (tape : nat -> nat) (p len : nat) : nat :=
  reach tape (seek tape (start tape) p) len.

(** The tape of a stream given by its first bytes (and continued by
    zeros); thrown-away bytes at the very end of the list are dropped. *)
Fixpoint encode_bytes (bytes : list nat) (thrown : nat) : list nat :=
  match bytes with
  | [] => []
  | b :: bytes' =>
      if b mod 256 <? 248
      then (248 * thrown + b mod 256) :: encode_bytes bytes' 0
      else encode_bytes bytes' (S thrown)
  end.

Definition tape_of_bytes (bytes : list nat) : nat -> nat :=
  fun i => nth i (encode_bytes bytes 0) 0.

(** A byte as the generator sees it: its value below 248, or thrown
    away. *)
Definition seen (b : nat) : nat :=
  if b mod 256 <? 248 then b mod 256 else 255.

(** ** [randomstring.generate]

    [maxByte = 256 - (256 % charsLen)]; while characters are missing, a
    buffer of [Math.ceil(length * 256 / maxByte)] random bytes is drawn and
    read in order: a byte below [maxByte] gives the character
    [chars.charAt(randomByte % charsLen)], any other byte is skipped, and
    the rest of the buffer is left unread once the string is complete. *)

Definition maxByte (charsLen : nat) : nat := 256 - 256 mod charsLen.

(** [randomBytes(n)], read from the stream at position [pos]. *)
Definition randomBytes (source : nat -> nat) (pos n : nat) : list nat :=
  map source (seq pos n).

Definition charAt (chars : list ascii) (i : nat) : ascii :=
  nth i chars "000"%char.

(** The [for] loop over one buffer. *)
Fixpoint scan (chars : list ascii) (buf : list nat) (len : nat)
    (str : list ascii) : list ascii * nat :=
  match buf, len with
  | [], _ => (str, len)
  | _, 0 => (str, 0)
  | randomByte :: buf', S len' =>
      if randomByte <? maxByte (length chars)
      then scan chars buf' len'
             (str ++ [charAt chars (randomByte mod length chars)])
      else scan chars buf' len str
  end.

Definition batch (len charsLen : nat) : nat :=
  (len * 256 + maxByte charsLen - 1) / maxByte charsLen.

(** The [while (length > 0)] loop; [fuel] bounds the number of buffers. *)
Fixpoint generate_loop (source : nat -> nat) (chars : list ascii)
    (fuel pos len : nat) (str : list ascii) : list ascii * nat :=
  match len, fuel with
  | 0, _ => (str, pos)
  | _, 0 => (str, pos)
  | _, S fuel' =>
      let n := batch len (length chars) in
      let buf := randomBytes source pos n in
      let '(str', len') := scan chars buf len str in
      generate_loop source chars fuel' (pos + n) len' str'
  end.

(** The string generated from position [pos] of the source, and the
    position after the buffers drawn. The fuel given is enough for the
    alphanumeric charset: see [generate_complete]. *)
Definition generate (tape : nat -> nat) (len : nat) (chars : list ascii)
    (pos : nat) : list ascii * nat :=
  generate_loop (raw tape) chars (horizon tape pos len) pos len [].

(** The bytes of a buffer that the generator keeps, and the characters
    they give. *)
Definition usable (chars : list ascii) (bytes : list nat) : list nat :=
  filter (fun b => b < maxByte (length chars)) bytes.

Definition spell (chars : list ascii) (bytes : list nat) : list ascii :=
  map (fun b => charAt chars (b mod length chars)) bytes.

(** The bytes met from a place of the stream on. *)
Definition bytes_from (tape : nat -> nat) (c : Cursor) (d : nat) : list nat :=
  map (fun j => byte_at tape (seek tape c j)) (seq 0 d).

(** ** Reading a token off the bytes drawn *)

(** The bytes of the stream from position [p] up to position [q]. *)
Definition drawn (tape : nat -> nat) (p q : nat) : list nat :=
  map (raw tape) (seq p (q - p)).

(** The token that a list of bytes spells: its first twelve bytes below
    248, each taken modulo 62 as an index into the 62 characters. *)
Definition token_of_bytes (bytes : list nat) : string :=
  String.string_of_list_ascii
    (map (fun b => nth (b mod 62) alphanumeric "000"%char)
       (take 12 (filter (fun b => b < 248) bytes))).

Local Close Scope nat_scope.

(** The properties given to [transferRepo.create]; the store assigns
    [createdAt] when the row is saved. *)
Record TransferDraft := mkDraft {
  d_sender : User;
  d_receiver : User;
  d_amount : Z;
  d_reference : string;
  d_balanceBefore : Z;
  d_balanceAfter : Z
}.

Definition stamp (d : TransferDraft) (now : Z) : Transfer :=
  mkTransfer (d_reference d) (d_sender d) (d_receiver d) (d_amount d)
    (d_balanceBefore d) (d_balanceAfter d) now.

Definition insert_transfer (t : Transfer) (s : Store) : Store :=
  mkStore (users s) (accounts s) (transfers s ++ [t]).

Definition inspect {A} (a : A) : {b : A | a = b} := exist _ a eq_refl.

(** ** The engine *)

Section Engine.

Context {userService : UserService} {accountService : AccountService}.

(** [fault n s]: the error, if any, with which the datastore aborts
    transaction number [n] at step [s] (a serialization failure raised
    because of a concurrent transaction, a lost connection, ...). *)
Variable fault : nat -> Step -> option Error.

(** The random source, as the tape of its stream of bytes. *)
Variable tape : nat -> nat.

(** [this.userService.findByUserId(id)]: no manager is passed, the lookup
    reads the committed store. *)
Definition userService_findByUserId (id : Z) : M (option User) := fun w =>
  (Ok (findByUserId id (committed w)), log (EvFindByUserId id) w).

Definition userService_findByUsername (handle : string) (withAccount : bool)
    : M (option User) := fun w =>
  (Ok (findByUsername handle withAccount (committed w)),
   log (EvFindByUsername handle) w).

(** [this.accountService.debitAccount(id, amount, manager)] *)
Definition accountService_debitAccount (id amt : Z) : M Account := fun w =>
  let w := log (EvDebit id amt) w in
  match fault (txseq w) AtDebit with
  | Some e => (Throw e, w)
  | None =>
      match debitAccount id amt (working w) with
      | inl e => (Throw e, w)
      | inr (acc, s) => (Ok acc, set_working s w)
      end
  end.

(** [this.accountService.creditAccount(id, amount, manager)] *)
Definition accountService_creditAccount (id amt : Z) : M Account := fun w =>
  let w := log (EvCredit id amt) w in
  match fault (txseq w) AtCredit with
  | Some e => (Throw e, w)
  | None =>
      match creditAccount id amt (working w) with
      | inl e => (Throw e, w)
      | inr (acc, s) => (Ok acc, set_working s w)
      end
  end.

(** [randomstring.generate({ length, charset })] *)
Definition randomstring_generate (len : nat) (charset : list ascii)
    : M string := fun w =>
  let g := generate tape len charset (rng w) in
  (Ok (String.string_of_list_ascii (fst g)),
   set_rng (snd g) (log (EvGenerate len) w)).

(** [this.transferRepo.create(props)] builds the entity in memory. *)
Definition transferRepo_create (d : TransferDraft) : M TransferDraft := ret d.

(** [manager.save(transfer)] *)
Definition manager_save (d : TransferDraft) : M Transfer := fun w =>
  let w := log (EvSave (d_reference d)) w in
  match fault (txseq w) AtSave with
  | Some e => (Throw e, w)
  | None =>
      let t := stamp d (clock w) in
      (Ok t, set_working (insert_transfer t (working w)) w)
  end.

(** [this.datasource.transaction(async (manager) => body)]: the body runs
    on a copy of the committed store; the copy is installed on commit and
    dropped when the body throws or the commit is refused. *)
Definition transaction {A} (body : M A) : M A := fun w =>
  let w0 := set_working (committed w) (log EvBegin w) in
  match body w0 with
  | (Ok a, w1) =>
      match fault (txseq w1) AtCommit with
      | None =>
          (Ok a, end_tx (log EvCommit (set_committed (working w1) w1)))
      | Some e =>
          (Throw e, end_tx (log EvRollback (set_working (committed w1) w1)))
      end
  | (Throw e, w1) =>
      (Throw e, end_tx (log EvRollback (set_working (committed w1) w1)))
  end.

Local Open Scope tx_scope.

Definition initiateTransfer (initiateTransferInput : InitiateTransferInput)
    : M Transfer :=
  let sender := inp_sender initiateTransferInput in
  let amount := inp_amount initiateTransferInput in
  let receiver := inp_receiver initiateTransferInput in
  transaction (
    senderAccount <- userService_findByUserId sender ;;
    receiverAccount <- userService_findByUsername receiver true ;;
    match receiverAccount with
    | None => throw (BadRequestException "Recipient not found")
    | Some receiverAccount =>
        senderAccount <- deref senderAccount ;;
        let balanceBefore := balance (account senderAccount) in
        updatedSenderAccount <-
          accountService_debitAccount (acc_id (account senderAccount)) amount ;;
        _ <- accountService_creditAccount
               (acc_id (account receiverAccount)) amount ;;
        reference <- randomstring_generate 12 alphanumeric ;;
        transfer <- transferRepo_create
          (mkDraft senderAccount receiverAccount amount reference
                   balanceBefore (balance updatedSenderAccount)) ;;
        savedTransfer <- manager_save transfer ;;
        ret savedTransfer
    end).

(** The transaction of another request commits, with effect [other] on the
    store. It is seen by every connection, and by the open transaction
    too as long as this one has not issued a statement. *)
Definition concurrent_commit (other : Store -> Store) : M unit := fun w =>
  (Ok tt, set_working (other (working w)) (set_committed (other (committed w)) w)).

(** [initiateTransfer] with the transaction of another request committing
    between its lookups, which do not go through the manager, and its
    debit, the first statement that does. *)
Definition initiateTransfer_interleaved (other : Store -> Store)
    (initiateTransferInput : InitiateTransferInput) : M Transfer :=
  let sender := inp_sender initiateTransferInput in
  let amount := inp_amount initiateTransferInput in
  let receiver := inp_receiver initiateTransferInput in
  transaction (
    senderAccount <- userService_findByUserId sender ;;
    receiverAccount <- userService_findByUsername receiver true ;;
    match receiverAccount with
    | None => throw (BadRequestException "Recipient not found")
    | Some receiverAccount =>
        senderAccount <- deref senderAccount ;;
        let balanceBefore := balance (account senderAccount) in
        _ <- concurrent_commit other ;;
        updatedSenderAccount <-
          accountService_debitAccount (acc_id (account senderAccount)) amount ;;
        _ <- accountService_creditAccount
               (acc_id (account receiverAccount)) amount ;;
        reference <- randomstring_generate 12 alphanumeric ;;
        transfer <- transferRepo_create
          (mkDraft senderAccount receiverAccount amount reference
                   balanceBefore (balance updatedSenderAccount)) ;;
        savedTransfer <- manager_save transfer ;;
        ret savedTransfer
    end).

(** [await new Promise(resolve => setTimeout(resolve, ms))] *)
Definition sleep (ms : Z) : M unit := fun w =>
  (Ok tt, tick ms (log (EvSleep ms) w)).

(** The promise of [initiateTransferWithRetry] resolves with a transfer,
    resolves with [undefined] ([None]), or rejects ([Throw]). *)
Equations? initiateTransferWithRetry
    (initiateTransferInput : InitiateTransferInput) (retries : Z) (w : World)
    : Result (option Transfer) * World by wf (Z.to_nat retries) lt :=
  initiateTransferWithRetry initiateTransferInput retries w
    with initiateTransfer initiateTransferInput w => {
    | (Ok t, w1) := (Ok (Some t), w1);
    | (Throw error, w1)
        with inspect (code_is "40001" error && bool_decide (retries > 0)) => {
        | exist _ true _ :=
            initiateTransferWithRetry initiateTransferInput (retries - 1)
              (snd (sleep 100 w1));
        | exist _ false _ := (Ok None, w1) } }.
Proof.
  apply andb_prop in e as [_ Hr]. apply bool_decide_eq_true in Hr. lia.
Qed.

(** [retries: number = 3] *)
Definition defaultRetries : Z := 3.

End Engine.

(** ** The collaborators, from their contracts *)

Definition set_balance (id b : Z) (s : Store) : Store :=
  mkStore (users s) (<[id := b]> (accounts s)) (transfers s).

(** Loads a user row together with its account. *)
Definition load_user (s : Store) (id : Z) (row : UserRow) : option User :=
  match accounts s !! row_account row with
  | Some b => Some (mkUser id (row_username row) (mkAccount (row_account row) b))
  | None => None
  end.

(** Modelled from the spec: the user service (core/user/services/user.service)
    is not among the sources. [resolveById(id) -> Identity] and
    [resolveByHandle(handle, includeAccount) -> Identity | NotFound]: a user
    is resolved by identifier or by its unique handle, with its account. *)
#[export] Instance ledgerUserService : UserService := {|
  findByUserId id s :=
    match users s !! id with
    | Some row => load_user s id row
    | None => None
    end;
  findByUsername handle _ s :=
    match filter (fun p => bool_decide (row_username (snd p) = handle))
                 (map_to_list (users s)) with
    | (id, row) :: _ => load_user s id row
    | [] => None
    end
|}.

(** Modelled from the spec: the account service
    (core/account/services/account.service) is not among the sources.
    [debit(accountId, amount, tx) -> {newBalance} | InsufficientFunds |
    AccountNotFound] and [credit(accountId, amount, tx) -> {newBalance} |
    AccountNotFound]: atomic balance mutators that return the account with
    its balance after the mutation; balances never become negative. *)
#[export] Instance ledgerAccountService : AccountService := {|
  debitAccount id amt s :=
    match accounts s !! id with
    | None => inl AccountNotFound
    | Some b =>
        if b <? amt then inl InsufficientFunds
        else inr (mkAccount id (b - amt), set_balance id (b - amt) s)
    end;
  creditAccount id amt s :=
    match accounts s !! id with
    | None => inl AccountNotFound
    | Some b => inr (mkAccount id (b + amt), set_balance id (b + amt) s)
    end
|}.

(** ** Listing transfers *)

Inductive FindOperator :=
| MoreThanOrEqual (v : string)
| LessThanOrEqual (v : string)
| Between (from to : string).

Record Query := mkQuery {
  startPeriodDatetime : option string;
  endPeriodDatetime : option string
}.

(** JavaScript truthiness of an optional string: [undefined] and the empty
    string are falsy. *)
Definition truthy (v : option string) : bool :=
  match v with
  | Some s => negb (bool_decide (s = ""))
  | None => false
  end.

Definition value (v : option string) : string := default "" v.

Definition buildFilter (query : Query) : gmap string FindOperator :=
  let filter : gmap string FindOperator := ∅ in
  let filter :=
    if truthy (startPeriodDatetime query)
    then <["createdAt" := MoreThanOrEqual (value (startPeriodDatetime query))]> filter
    else filter in
  let filter :=
    if truthy (endPeriodDatetime query)
    then <["createdAt" := LessThanOrEqual (value (endPeriodDatetime query))]> filter
    else filter in
  let filter :=
    if truthy (startPeriodDatetime query) && truthy (endPeriodDatetime query)
    then <["createdAt" := Between (value (startPeriodDatetime query))
                                  (value (endPeriodDatetime query))]> filter
    else filter in
  filter.

Record Pagination := mkPagination { pg_skip : option nat; pg_take : option nat }.

Record ServiceMethodOptions := mkOptions {
  currentUser : User;
  query : Query;
  pagination : Pagination
}.

Record PaginatedResult := mkPaginated { records : list Transfer; count : nat }.

(** The WHERE clause is SQL text. The query builder joins the fragments it
    is given with AND; a fragment passed as a string is appended as it is
    written, without parentheses around it (grouping takes [Brackets] or
    parentheses in the string itself). The text is kept here as its
    sequence of conditions and connectives. *)
Inductive Cond :=
| CTrue
| CColumn (col : string) (op : FindOperator)
| CSenderIs (userId : Z)
| CReceiverIs (userId : Z).

Inductive Token := TCond (c : Cond) | TAnd | TOr.

Inductive Direction := ASC | DESC.

Record QueryBuilder := mkQB {
  qb_skip : option nat;
  qb_take : option nat;
  qb_wheres : list Token;
  qb_order : option (string * Direction)
}.

Definition createQueryBuilder (alias : string) : QueryBuilder :=
  mkQB None None [] None.

Definition skip_ (n : option nat) (qb : QueryBuilder) : QueryBuilder :=
  mkQB n (qb_take qb) (qb_wheres qb) (qb_order qb).

Definition take_ (n : option nat) (qb : QueryBuilder) : QueryBuilder :=
  mkQB (qb_skip qb) n (qb_wheres qb) (qb_order qb).

Fixpoint join_and (cs : list Cond) : list Token :=
  match cs with
  | [] => []
  | [c] => [TCond c]
  | c :: cs => TCond c :: TAnd :: join_and cs
  end.

(** [.where(object)]: one condition per property, joined by AND; an empty
    object gives [1=1]. *)
Definition where_ (filter : gmap string FindOperator) (qb : QueryBuilder)
    : QueryBuilder :=
  let conds := (fun p => CColumn (fst p) (snd p)) <$> map_to_list filter in
  mkQB (qb_skip qb) (qb_take qb)
       (match conds with [] => [TCond CTrue] | _ => join_and conds end)
       (qb_order qb).

(** [.andWhere(text)]: the text is appended after an AND. *)
Definition andWhere (fragment : list Token) (qb : QueryBuilder) : QueryBuilder :=
  mkQB (qb_skip qb) (qb_take qb) (qb_wheres qb ++ TAnd :: fragment) (qb_order qb).

Definition orderBy (col : string) (d : Direction) (qb : QueryBuilder)
    : QueryBuilder :=
  mkQB (qb_skip qb) (qb_take qb) (qb_wheres qb) (Some (col, d)).

(** The [sender] and [receiver] relations are part of a [Transfer] row
    here, so that loading them changes nothing. *)
Definition leftJoinAndSelect (relation alias : string) (qb : QueryBuilder)
    : QueryBuilder := qb.

(** ['transfer.senderId = :userId OR transfer.receiverId = :userId'] *)
Definition sender_or_receiver (userId : Z) : list Token :=
  [TCond (CSenderIs userId); TOr; TCond (CReceiverIs userId)].

(** In SQL, AND binds tighter than OR: the clause is the disjunction of the
    conjunctions that its ORs separate. *)
Fixpoint disjuncts (ts : list Token) (cur : list Cond) : list (list Cond) :=
  match ts with
  | [] => [cur]
  | TCond c :: ts => disjuncts ts (cur ++ [c])
  | TAnd :: ts => disjuncts ts cur
  | TOr :: ts => cur :: disjuncts ts []
  end.

Section Listing.

(** The datastore's reading of a textual date-time parameter. *)
Variable timestamp : string -> Z.

Definition operator_holds (op : FindOperator) (x : Z) : bool :=
  match op with
  | MoreThanOrEqual v => timestamp v <=? x
  | LessThanOrEqual v => x <=? timestamp v
  | Between a b => (timestamp a <=? x) && (x <=? timestamp b)
  end.

Definition cond_holds (t : Transfer) (c : Cond) : bool :=
  match c with
  | CTrue => true
  | CColumn col op =>
      bool_decide (col = "createdAt") && operator_holds op (createdAt t)
  | CSenderIs u => bool_decide (user_id (sender t) = u)
  | CReceiverIs u => bool_decide (user_id (receiver t) = u)
  end.

Definition where_holds (ts : list Token) (t : Transfer) : bool :=
  existsb (forallb (cond_holds t)) (disjuncts ts []).

(** Rows by [createdAt], newest first. *)
Fixpoint insert_desc (t : Transfer) (l : list Transfer) : list Transfer :=
  match l with
  | [] => [t]
  | x :: l' =>
      if createdAt x <=? createdAt t then t :: l else x :: insert_desc t l'
  end.

Definition sort_desc (l : list Transfer) : list Transfer :=
  foldr insert_desc [] l.

(** [skip] and [take] as the query builder applies them: a value of 0
    is the same as none, so that [take(0)] puts no limit. *)
Definition page (skip take_n : option nat) (l : list Transfer) : list Transfer :=
  let l := match skip with Some n => drop n l | None => l end in
  match take_n with
  | Some 0%nat => l
  | Some n => take n l
  | None => l
  end.

(** [getManyAndCount()]: the page of matching rows, and the number of
    matching rows whatever the page. *)
Definition getManyAndCount (qb : QueryBuilder) (s : Store)
    : list Transfer * nat :=
  let matching := filter (fun t => where_holds (qb_wheres qb) t = true)
                         (transfers s) in
  let ordered :=
    match qb_order qb with
    | Some (_, DESC) => sort_desc matching
    | Some (_, ASC) => reverse (sort_desc matching)
    | None => matching
    end in
  (page (qb_skip qb) (qb_take qb) ordered, length matching).

Definition find (options : ServiceMethodOptions) (s : Store) : PaginatedResult :=
  let currentUser := currentUser options in
  let query := query options in
  let pagination := pagination options in
  let filter := buildFilter query in
  let transferQuery :=
    orderBy "transfer.createdAt" DESC
      (leftJoinAndSelect "transfer.receiver" "receiver"
        (leftJoinAndSelect "transfer.sender" "sender"
          (andWhere (sender_or_receiver (user_id currentUser))
            (where_ filter
              (take_ (pg_take pagination)
                (skip_ (pg_skip pagination)
                  (createQueryBuilder "transfer"))))))) in
  let '(records, count) := getManyAndCount transferQuery s in
  mkPaginated records count.

End Listing.

(** Date-times written as a decimal number of seconds. *)
Fixpoint decimal (s : string) (acc : Z) : Z :=
  match s with
  | EmptyString => acc
  | String c s' => decimal s' (10 * acc + (Z.of_nat (nat_of_ascii c) - 48))
  end.

Definition seconds (s : string) : Z := decimal s 0.

(** ** Reading the listing *)

(** The date condition of a filter object, on one row. *)
Definition in_range (timestamp : string -> Z)
    (filter : gmap string FindOperator) (t : Transfer) : bool :=
  match filter !! "createdAt" with
  | Some op => operator_holds timestamp op (createdAt t)
  | None => true
  end.

Definition sent_by (u : Z) (t : Transfer) : bool :=
  bool_decide (user_id (sender t) = u).

Definition received_by (u : Z) (t : Transfer) : bool :=
  bool_decide (user_id (receiver t) = u).

(** The rows that the WHERE clause of [find] selects for viewer [u]. *)
Definition listed (timestamp : string -> Z) (u : Z) (q : Query)
    (t : Transfer) : bool :=
  in_range timestamp (buildFilter q) t && sent_by u t || received_by u t.

Definition newest_first (l : list Transfer) : Prop :=
  StronglySorted (fun a b => createdAt b <= createdAt a) l.

(** ** Observations on a run *)

(** The events recorded between two worlds. *)
Definition events_since (w w' : World) : list Event :=
  drop (length (trace w)) (trace w').

Definition is_begin (e : Event) : bool :=
  match e with EvBegin => true | _ => false end.

(** Every attempt opens exactly one transaction. *)
Definition attempts (evs : list Event) : nat :=
  length (filter (fun e => is_begin e = true) evs).

Definition total_sleep (evs : list Event) : Z :=
  foldr (fun e acc => match e with EvSleep ms => ms + acc | _ => acc end) 0 evs.

(** [conflict_run n w t w']: started in [w], the next [n] attempts each
    fail with an error whose code is 40001, a pause of 100ms follows each of
    them, and the attempt after them returns [t] and leaves the world [w']. *)
Inductive conflict_run {userService : UserService}
    {accountService : AccountService}
    (fault : nat -> Step -> option Error) (tape : nat -> nat)
    (inp : InitiateTransferInput)
    : nat -> World -> Transfer -> World -> Prop :=
| run_success w t w' :
    initiateTransfer fault tape inp w = (Ok t, w') ->
    conflict_run fault tape inp 0 w t w'
| run_conflict n w e w1 t w' :
    initiateTransfer fault tape inp w = (Throw e, w1) ->
    code_is "40001" e = true ->
    conflict_run fault tape inp n (snd (sleep 100 w1)) t w' ->
    conflict_run fault tape inp (S n) w t w'.

(** [exhausted_run n w w']: started in [w], [n + 1] attempts in a row fail
    with an error whose code is 40001, with a pause of 100ms after each of
    the first [n]; [w'] is the world the last attempt leaves. *)
Inductive exhausted_run {userService : UserService}
    {accountService : AccountService}
    (fault : nat -> Step -> option Error) (tape : nat -> nat)
    (inp : InitiateTransferInput)
    : nat -> World -> World -> Prop :=
| exhausted_last w e w' :
    initiateTransfer fault tape inp w = (Throw e, w') ->
    code_is "40001" e = true ->
    exhausted_run fault tape inp 0 w w'
| exhausted_again n w e w1 w' :
    initiateTransfer fault tape inp w = (Throw e, w1) ->
    code_is "40001" e = true ->
    exhausted_run fault tape inp n (snd (sleep 100 w1)) w' ->
    exhausted_run fault tape inp (S n) w w'.

(** ** A concrete ledger *)

Definition store0 : Store :=
  mkStore (<[1 := mkUserRow "alice" 10]> (<[2 := mkUserRow "bob" 20]> ∅))
          (<[10 := 500]> (<[20 := 50]> ∅))
          [].

Definition world0 : World := mkWorld store0 store0 [] 0 0 1000.

Definition no_fault (n : nat) (s : Step) : option Error := None.

(** The first [n] transactions are refused at commit with a serialization
    failure. *)
Definition conflicts (n : nat) (k : nat) (s : Step) : option Error :=
  match s with
  | AtCommit => if (k <? n)%nat then Some (QueryFailedError "40001") else None
  | _ => None
  end.

Definition always_conflict (k : nat) (s : Step) : option Error :=
  match s with
  | AtCommit => Some (QueryFailedError "40001")
  | _ => None
  end.

Definition tape0 (i : nat) : nat := (7 * i + 3)%nat.

(** A source in which thrown-away bytes come between the kept ones. *)
Definition tape1 (i : nat) : nat := (7 * i + 3 + 248 * (i mod 3))%nat.

(** Another request moves 100 from alice to bob and commits. *)
Definition other_transfer (s : Store) : Store :=
  committed
    (snd (initiateTransfer no_fault tape0 (mkInput 1 100 "bob")
            (mkWorld s s [] 0 0 0))).

Definition alice : User := mkUser 1 "alice" (mkAccount 10 500).
Definition bob : User := mkUser 2 "bob" (mkAccount 20 50).

(** A ledger with three past transfers: two from alice to bob, at times 5
    and 20, and one from bob to alice at time 7. *)
Definition t5 : Transfer := mkTransfer "aaaaaaaaaaa1" alice bob 10 500 490 5.
Definition t7 : Transfer := mkTransfer "aaaaaaaaaaa2" bob alice 10 60 50 7.
Definition t20 : Transfer := mkTransfer "aaaaaaaaaaa3" alice bob 10 500 490 20.

Definition store3 : Store :=
  mkStore (users store0) (accounts store0) [t5; t7; t20].

Definition first_page : Pagination := mkPagination (Some 0%nat) (Some 10%nat).

Definition unpaged : Pagination := mkPagination None None.

(** The connection is lost when the credit is issued. *)
Definition credit_fault (k : nat) (s : Step) : option Error :=
  match s with
  | AtCredit => Some (QueryFailedError "08006")
  | _ => None
  end.

(** * Properties of the engine *)

Ltac unfold_attempt :=
  unfold initiateTransfer, transaction, bind, userService_findByUserId,
    userService_findByUsername, accountService_debitAccount,
    accountService_creditAccount, randomstring_generate, transferRepo_create,
    manager_save, deref, ret, throw in *.

Ltac split_attempt :=
  repeat (case_match; simplify_eq/=).

(** Membership in an explicit list of events, case by case. *)
Ltac elem_cases :=
  repeat match goal with
  | H : _ ∈ _ :: _ |- _ => apply elem_of_cons in H as [?|H]; [simplify_eq/=|]
  | H : _ ∈ [] |- _ => by apply elem_of_nil in H
  end.

Lemma events_since_app (w w' : World) (evs : list Event) :
  trace w' = trace w ++ evs -> events_since w w' = evs.
Proof.
  intros E. unfold events_since. rewrite E. by rewrite drop_app_length.
Qed.

Lemma events_since_trans (w w1 w2 : World) (evs1 evs2 : list Event) :
  trace w1 = trace w ++ evs1 -> trace w2 = trace w1 ++ evs2 ->
  trace w2 = trace w ++ (evs1 ++ evs2).
Proof. intros -> ->. by rewrite app_assoc. Qed.

Lemma attempts_app (l1 l2 : list Event) :
  attempts (l1 ++ l2) = (attempts l1 + attempts l2)%nat.
Proof. unfold attempts. by rewrite filter_app, length_app. Qed.

Lemma total_sleep_app (l1 l2 : list Event) :
  total_sleep (l1 ++ l2) = total_sleep l1 + total_sleep l2.
Proof.
  induction l1 as [|e l1 IH]; simpl; [done|]. destruct e; lia.
Qed.

Lemma elem_of_insert_transfer (t : Transfer) (s : Store) :
  t ∈ transfers (insert_transfer t s).
Proof.
  unfold insert_transfer; simpl.
  apply elem_of_app. right. by apply list_elem_of_singleton.
Qed.

Lemma string_of_list_ascii_length (l : list ascii) :
  String.length (String.string_of_list_ascii l) = length l.
Proof. induction l; simpl; congruence. Qed.

Local Open Scope nat_scope.

Lemma scan_spec chars buf len str :
  scan chars buf len str =
  (str ++ spell chars (take len (usable chars buf)),
   len - length (usable chars buf)).
Proof.
  revert len str. induction buf as [|b buf IH]; intros len str; simpl.
  - destruct len; simpl; rewrite app_nil_r; f_equal.
  - destruct len as [|len].
    + simpl. by rewrite app_nil_r.
    + unfold usable. rewrite filter_cons.
      destruct (Nat.ltb_spec b (maxByte (length chars))) as [Hlt|Hge].
      * rewrite decide_True by done. rewrite IH. simpl.
        rewrite <- app_assoc. done.
      * rewrite decide_False by lia. by rewrite IH.
Qed.

Lemma usable_app chars l1 l2 :
  usable chars (l1 ++ l2) = usable chars l1 ++ usable chars l2.
Proof. apply filter_app. Qed.

Lemma randomBytes_app source pos n m :
  randomBytes source pos (n + m)
  = randomBytes source pos n ++ randomBytes source (pos + n) m.
Proof. unfold randomBytes. by rewrite seq_app, map_app. Qed.

Lemma generate_loop_spec source chars fuel pos len str :
  let r := generate_loop source chars fuel pos len str in
  pos <= snd r /\
  fst r = str ++ spell chars
            (take len (usable chars (randomBytes source pos (snd r - pos)))).
Proof.
  revert pos len str. induction fuel as [|fuel IH]; intros pos len str.
  - cbv zeta. destruct len; simpl; rewrite ?Nat.sub_diag; simpl;
      rewrite app_nil_r; auto.
  - destruct len as [|len'].
    { simpl. rewrite app_nil_r. auto. }
    cbn [generate_loop].
    set (len := S len'). set (n := batch len (length chars)).
    rewrite scan_spec.
    specialize (IH (pos + n)
      (len - length (usable chars (randomBytes source pos n)))
      (str ++ spell chars (take len (usable chars (randomBytes source pos n))))).
    cbv zeta in IH |- *. destruct IH as [Hle Heq]. split; [lia|].
    rewrite Heq. rewrite <- app_assoc. f_equal.
    set (q := snd (generate_loop _ _ _ _ _ _)) in *.
    replace (q - pos) with (n + (q - (pos + n))) by lia.
    rewrite randomBytes_app, usable_app, take_app.
    unfold spell. by rewrite map_app.
Qed.

Lemma generate_loop_done source chars fuel pos str :
  generate_loop source chars fuel pos 0 str = (str, pos).
Proof. by destruct fuel. Qed.

Lemma batch_ge len c :
  0 < maxByte c -> len <= batch len c.
Proof.
  intros Hpos. unfold batch.
  assert (maxByte c <= 256) by (unfold maxByte; lia).
  apply Nat.div_le_lower_bound; [lia|]. nia.
Qed.

Lemma usable_prefix_length chars source pos n d :
  d <= n ->
  length (usable chars (randomBytes source pos d))
  <= length (usable chars (randomBytes source pos n)).
Proof.
  intros Hle. replace n with (d + (n - d)) by lia.
  rewrite randomBytes_app, usable_app, length_app. lia.
Qed.

Lemma generate_loop_complete source chars fuel d pos len str :
  0 < maxByte (length chars) ->
  len <= length (usable chars (randomBytes source pos d)) ->
  d <= fuel ->
  len <= length
           (usable chars
              (randomBytes source pos
                 (snd (generate_loop source chars fuel pos len str) - pos))).
Proof.
  intros Hmax. revert d pos len str.
  induction fuel as [|fuel IH]; intros d pos len str Hlen Hd.
  - assert (d = 0) as -> by lia. simpl in Hlen.
    assert (len = 0) as -> by lia. lia.
  - destruct len as [|len']; [lia|].
    cbn [generate_loop].
    set (len := S len') in *. set (n := batch len (length chars)).
    assert (len <= n) as Hn by (by apply batch_ge).
    rewrite scan_spec.
    set (u1 := length (usable chars (randomBytes source pos n))).
    destruct (decide (len <= u1)) as [Hdone|Hmore].
    + replace (len - u1) with 0 by lia. rewrite generate_loop_done. simpl.
      replace (pos + n - pos) with n by lia. done.
    + assert (n < d) as Hnd.
      { destruct (decide (n < d)); [done|].
        pose proof (usable_prefix_length chars source pos n d ltac:(lia)).
        fold u1 in H. lia. }
      assert (len - u1
              <= length (usable chars (randomBytes source (pos + n) (d - n))))
        as Hrest.
      { replace d with (n + (d - n)) in Hlen by lia.
        rewrite randomBytes_app, usable_app, length_app in Hlen.
        fold u1 in Hlen. lia. }
      specialize (IH (d - n) (pos + n) (len - u1)
        (str ++ spell chars (take len (usable chars (randomBytes source pos n))))
        Hrest ltac:(unfold len in *; lia)).
      pose proof (generate_loop_spec source chars fuel (pos + n) (len - u1)
        (str ++ spell chars (take len (usable chars (randomBytes source pos n)))))
        as [Hle _].
      cbv zeta in Hle.
      set (q := snd (generate_loop _ _ _ _ _ _)) in *.
      replace (q - pos) with (n + (q - (pos + n))) by lia.
      rewrite randomBytes_app, usable_app, length_app. fold u1. lia.
Qed.

Lemma seek_add tape c a b :
  seek tape c (a + b) = seek tape (seek tape c a) b.
Proof. revert c. induction a as [|a IH]; intros c; simpl; [done|apply IH]. Qed.

Lemma map_seq_from {A} (f : nat -> A) p d :
  map f (seq p d) = map (fun j => f (p + j)) (seq 0 d).
Proof.
  revert p. induction d as [|d IH]; intros p; simpl; [done|].
  rewrite Nat.add_0_r. f_equal.
  rewrite IH, <- seq_shift, map_map.
  apply map_ext. intros j. f_equal. lia.
Qed.

Lemma bytes_from_app tape c a b :
  bytes_from tape c (a + b)
  = bytes_from tape c a ++ bytes_from tape (seek tape c a) b.
Proof.
  unfold bytes_from. rewrite seq_app, map_app. f_equal. simpl.
  rewrite map_seq_from. apply map_ext. intros j. by rewrite seek_add.
Qed.

Lemma randomBytes_raw tape p d :
  randomBytes (raw tape) p d = bytes_from tape (seek tape (start tape) p) d.
Proof.
  unfold randomBytes, bytes_from, raw.
  rewrite map_seq_from. apply map_ext. intros j. by rewrite seek_add.
Qed.

Lemma bytes_from_next tape i k :
  seek tape (i, k) (k + 1) = (S i, tape (S i) / 248) /\
  1 <= length (filter (fun b => b < 248) (bytes_from tape (i, k) (k + 1))).
Proof.
  induction k as [|k IH].
  - split; [done|]. unfold bytes_from. cbn -[Nat.modulo Nat.div].
    rewrite decide_True; [simpl; lia|].
    apply Nat.mod_upper_bound. lia.
  - destruct IH as [IH1 IH2]. split; [exact IH1|].
    replace (S k + 1) with (1 + (k + 1)) by lia.
    rewrite bytes_from_app, filter_app, length_app.
    change (seek tape (i, S k) 1) with (i, k). lia.
Qed.

Lemma reach_usable tape len c :
  len <= length (filter (fun b => b < 248) (bytes_from tape c (reach tape c len))).
Proof.
  revert c. induction len as [|len IH]; intros [i k]; [lia|].
  cbn [reach fst snd].
  rewrite <- Nat.add_assoc, (Nat.add_comm 1), Nat.add_assoc.
  rewrite (bytes_from_app tape (i, k) (k + 1)), filter_app, length_app.
  destruct (bytes_from_next tape i k) as [Hseek Hone].
  rewrite Hseek. specialize (IH (S i, tape (S i) / 248)). lia.
Qed.

Lemma generate_loop_first_batch source chars fuel pos len str :
  0 < len -> 0 < fuel ->
  pos + batch len (length chars)
  <= snd (generate_loop source chars fuel pos len str).
Proof.
  intros Hlen Hfuel. destruct len as [|len]; [lia|].
  destruct fuel as [|fuel]; [lia|]. cbn [generate_loop].
  rewrite scan_spec.
  match goal with
  | |- _ <= snd (generate_loop ?s ?c ?f ?p ?l ?x) =>
      pose proof (generate_loop_spec s c f p l x) as [Hle _]
  end.
  exact Hle.
Qed.

(** From any position, the generator returns twelve characters: it draws
    at least one buffer of thirteen bytes, the bytes it has drawn hold at
    least twelve bytes below 248, and the string is the token that they
    spell. *)
Lemma generate_complete tape pos :
  let g := generate tape 12 alphanumeric pos in
  pos + 13 <= snd g /\
  12 <= length (filter (fun b => b < 248) (drawn tape pos (snd g))) /\
  String.string_of_list_ascii (fst g) = token_of_bytes (drawn tape pos (snd g)).
Proof.
  cbv zeta. unfold generate, drawn, token_of_bytes.
  split; [|split].
  - apply (generate_loop_first_batch (raw tape) alphanumeric
             (horizon tape pos 12) pos 12 []); [lia|].
    unfold horizon. cbn [reach]. lia.
  - apply (generate_loop_complete (raw tape) alphanumeric
             (horizon tape pos 12) (horizon tape pos 12) pos 12 []);
      [vm_compute; lia| |lia].
    rewrite randomBytes_raw. apply reach_usable.
  - pose proof (generate_loop_spec (raw tape) alphanumeric
                  (horizon tape pos 12) pos 12 []) as [_ Heq].
    cbv zeta in Heq. rewrite Heq. reflexivity.
Qed.

Lemma entry_div_mod r b :
  b < 248 -> (248 * r + b) / 248 = r /\ (248 * r + b) mod 248 = b.
Proof.
  intros Hb. split.
  - symmetry. apply (Nat.div_unique _ 248 r b); lia.
  - symmetry. apply (Nat.mod_unique _ 248 r b); lia.
Qed.

Lemma encode_bytes_head bytes thrown e es :
  encode_bytes bytes thrown = e :: es -> thrown <= e / 248 /\ e mod 248 < 248.
Proof.
  revert thrown. induction bytes as [|b bytes IH]; intros thrown;
    cbn [encode_bytes]; [done|].
  destruct (Nat.ltb_spec (b mod 256) 248) as [Hlt|Hge].
  - intros H.
    assert (e = 248 * thrown + b mod 256) as -> by congruence.
    destruct (entry_div_mod thrown (b mod 256) Hlt) as [-> ->]. lia.
  - intros H. apply IH in H. lia.
Qed.

Lemma seek_encoded bytes :
  forall thrown tape i p q,
    (forall j, j < length (encode_bytes bytes thrown) ->
               tape (i + j) = nth j (encode_bytes bytes thrown) 0) ->
    p <= q -> q < length bytes -> nth q bytes 0 mod 256 < 248 ->
    byte_at tape (seek tape (i, tape i / 248 - thrown) p) = seen (nth p bytes 0).
Proof.
  induction bytes as [|b bytes IH]; intros thrown tape i p q Htape Hpq Hq Hkept;
    [cbn [length] in Hq; lia|].
  cbn [encode_bytes] in Htape. unfold seen.
  destruct (Nat.ltb_spec (b mod 256) 248) as [Hlt|Hge].
  - (* a kept byte: the entry is complete *)
    pose proof (Htape 0 ltac:(cbn [length]; lia)) as H0.
    rewrite Nat.add_0_r in H0. cbn [nth] in H0.
    destruct (entry_div_mod thrown (b mod 256) Hlt) as [Hdiv Hmod].
    rewrite <- H0 in Hdiv, Hmod.
    rewrite Hdiv, Nat.sub_diag.
    destruct p as [|p].
    + cbn [nth]. cbn [seek byte_at].
      destruct (Nat.ltb_spec (b mod 256) 248); [done|lia].
    + destruct q as [|q]; [lia|]. cbn [length nth] in Hq, Hkept.
      cbn [seek step]. cbn [nth].
      specialize (IH 0 tape (S i) p q).
      rewrite Nat.sub_0_r in IH. apply IH; [|lia|lia|done].
      intros j Hj. specialize (Htape (S j) ltac:(cbn [length]; lia)).
      cbn [nth] in Htape. rewrite <- Htape. f_equal. lia.
  - (* a thrown-away byte: it belongs to the entry of the next kept one *)
    destruct (encode_bytes bytes (S thrown)) as [|e es] eqn:He.
    { (* no kept byte follows: excluded *)
      exfalso. destruct q as [|q]; [cbn [nth] in Hkept; lia|].
      cbn [length nth] in Hq, Hkept. clear -He Hq Hkept.
      revert q thrown He Hq Hkept.
      induction bytes as [|b' bytes IH']; intros q thrown He Hq Hkept;
        [cbn [length] in Hq; lia|].
      cbn [encode_bytes] in He.
      destruct (Nat.ltb_spec (b' mod 256) 248); [done|].
      destruct q as [|q]; [cbn [nth] in Hkept; lia|].
      cbn [length nth] in Hq, Hkept. eapply (IH' q); [exact He|lia|done]. }
    pose proof (encode_bytes_head _ _ _ _ He) as [Hthrown _].
    pose proof (Htape 0 ltac:(cbn [length]; lia)) as H0.
    rewrite Nat.add_0_r in H0. cbn [nth] in H0.
    assert (tape i / 248 - thrown = S (tape i / 248 - S thrown)) as ->
      by (rewrite H0; lia).
    destruct p as [|p].
    + cbn [nth]. cbn [seek byte_at].
      destruct (Nat.ltb_spec (b mod 256) 248); [lia|done].
    + destruct q as [|q]; [lia|]. cbn [length nth] in Hq, Hkept.
      cbn [seek step]. cbn [nth].
      apply (IH (S thrown) tape i p q); [|lia|lia|done].
      rewrite He. exact Htape.
Qed.

(** The tape of a list of bytes reads back as those bytes, as far as the
    last of them that is kept. *)
Lemma raw_tape_of_bytes bytes p q :
  p <= q -> q < length bytes -> nth q bytes 0 mod 256 < 248 ->
  raw (tape_of_bytes bytes) p = seen (nth p bytes 0).
Proof.
  intros Hpq Hq Hkept. unfold raw, start.
  rewrite <- (Nat.sub_0_r (tape_of_bytes bytes 0 / 248)).
  apply (seek_encoded bytes 0 (tape_of_bytes bytes) 0 p q); try done.
Qed.

Lemma alphanumeric_chars :
  Forall (fun c => is_alphanumeric c = true) alphanumeric.
Proof. by vm_compute; repeat constructor. Qed.

Lemma token_of_bytes_chars (bytes : list nat) :
  12 <= length (filter (fun b => b < 248) bytes) ->
  String.length (token_of_bytes bytes) = 12 /\
  Forall (fun c => is_alphanumeric c = true)
    (String.list_ascii_of_string (token_of_bytes bytes)).
Proof.
  intros Hlen. unfold token_of_bytes. split.
  - rewrite string_of_list_ascii_length, length_map, length_take. lia.
  - rewrite String.list_ascii_of_string_of_list_ascii.
    apply Forall_map, Forall_forall. intros b _.
    pose proof alphanumeric_chars as Hall.
    rewrite Forall_forall in Hall. apply Hall.
    apply list_elem_of_In, nth_In.
    change (length alphanumeric) with 62.
    apply Nat.mod_upper_bound. lia.
Qed.

Local Close Scope nat_scope.

Section EngineProperties.

Context {userService : UserService} {accountService : AccountService}.
Variable fault : nat -> Step -> option Error.
Variable tape : nat -> nat.

(** An attempt appends its events to the trace: it opens one transaction
    and never sleeps. *)
Lemma attempt_trace inp w :
  exists evs,
    trace (snd (initiateTransfer fault tape inp w)) = trace w ++ evs /\
    attempts evs = 1%nat /\ total_sleep evs = 0.
Proof.
  unfold_attempt. split_attempt; rewrite <- ?app_assoc; simpl;
    eexists; (split; [reflexivity|]); by vm_compute.
Qed.

(** A successful attempt, step by step. *)
Lemma attempt_success_inv inp w t w' :
  initiateTransfer fault tape inp w = (Ok t, w') ->
  exists su ru sacc s1 racc s2,
    findByUserId (inp_sender inp) (committed w) = Some su /\
    findByUsername (inp_receiver inp) true (committed w) = Some ru /\
    debitAccount (acc_id (account su)) (inp_amount inp) (committed w)
      = inr (sacc, s1) /\
    creditAccount (acc_id (account ru)) (inp_amount inp) s1
      = inr (racc, s2) /\
    t = stamp (mkDraft su ru (inp_amount inp)
                 (String.string_of_list_ascii
                    (fst (generate tape 12 alphanumeric (rng w))))
                 (balance (account su)) (balance sacc)) (clock w) /\
    committed w' = insert_transfer t s2.
Proof.
  unfold_attempt. intros Hrun. split_attempt.
  do 6 eexists. repeat split; eauto.
Qed.

(** C1. One attempt is all or nothing. When it returns a transfer, the
    debit and then the credit were applied to the transaction's copy of the
    store, the returned record was saved into that same copy, and the copy
    was committed as a whole. When it fails, at whatever step, the committed
    store is the one before the attempt: no record and no balance change.
    A credit is issued only after the debit has succeeded. *)
Theorem initiateTransfer_all_or_nothing inp w :
  match initiateTransfer fault tape inp w with
  | (Ok t, w') =>
      exists su ru sacc s1 racc s2,
        findByUserId (inp_sender inp) (committed w) = Some su /\
        findByUsername (inp_receiver inp) true (committed w) = Some ru /\
        debitAccount (acc_id (account su)) (inp_amount inp) (committed w)
          = inr (sacc, s1) /\
        creditAccount (acc_id (account ru)) (inp_amount inp) s1
          = inr (racc, s2) /\
        committed w' = insert_transfer t s2 /\
        t ∈ transfers (committed w')
  | (Throw _, w') => committed w' = committed w
  end /\
  (forall a amt,
     EvCredit a amt ∈ events_since w (snd (initiateTransfer fault tape inp w)) ->
     exists su sacc s1,
       findByUserId (inp_sender inp) (committed w) = Some su /\
       debitAccount (acc_id (account su)) (inp_amount inp) (committed w)
         = inr (sacc, s1)).
Proof.
  split.
  - unfold_attempt. split_attempt; try reflexivity.
    do 6 eexists. repeat split; eauto.
    apply elem_of_insert_transfer.
  - intros a amt. unfold events_since.
    unfold_attempt. split_attempt;
      rewrite <- ?app_assoc; simpl; rewrite drop_app_length;
      intros Hin; elem_cases; eauto.
Qed.

(** C6. When the receiver handle does not resolve, the attempt throws
    [BadRequestException('Recipient not found')]; the only calls made are
    the two lookups, so no debit, credit or save is issued, and the
    committed store (balances and transfers) is unchanged. *)
Theorem initiateTransfer_recipient_not_found inp w :
  findByUsername (inp_receiver inp) true (committed w) = None ->
  exists w',
    initiateTransfer fault tape inp w
      = (Throw (BadRequestException "Recipient not found"), w') /\
    committed w' = committed w /\
    events_since w w'
      = [EvBegin; EvFindByUserId (inp_sender inp);
         EvFindByUsername (inp_receiver inp); EvRollback].
Proof.
  intros Hnone. unfold_attempt. simpl. rewrite Hnone. simpl.
  eexists. split; [reflexivity|]. split; [reflexivity|].
  apply events_since_app. simpl. by rewrite <- !app_assoc.
Qed.

(** C8, as amended. The record an attempt persists carries the requested
    amount unchanged: it is positive exactly when the requested amount is.
    The attempt itself puts no condition on the sign of the amount. *)
Theorem initiateTransfer_amount inp w t w' :
  initiateTransfer fault tape inp w = (Ok t, w') ->
  t ∈ transfers (committed w') /\
  amount t = inp_amount inp /\
  (amount t > 0 <-> inp_amount inp > 0).
Proof.
  unfold_attempt. intros Hrun. split_attempt.
  split; [|split; [done|tauto]].
  apply elem_of_insert_transfer.
Qed.

End EngineProperties.

(** * Properties of the retry wrapper *)

Section RetryProperties.

Context {userService : UserService} {accountService : AccountService}.
Variable fault : nat -> Step -> option Error.
Variable tape : nat -> nat.

(** The body of [initiateTransferWithRetry], as the source writes it: the
    attempt inside [try], the test on the error code and on [retries] in
    [catch], and nothing after the [if]. *)
Lemma initiateTransferWithRetry_eq inp retries w :
  initiateTransferWithRetry fault tape inp retries w =
  try_catch
    (bind (initiateTransfer fault tape inp) (fun t => ret (Some t)))
    (fun error =>
       if code_is "40001" error && bool_decide (retries > 0)
       then bind (sleep 100)
              (fun _ => initiateTransferWithRetry fault tape inp (retries - 1))
       else ret None) w.
Proof.
  unfold try_catch, bind, ret. simp initiateTransferWithRetry.
  destruct (initiateTransfer fault tape inp w) as [[t|error] w1]; simpl;
    [reflexivity|].
  by destruct (code_is "40001" error && bool_decide (retries > 0)).
Qed.

Lemma retry_on_success inp retries w t w' :
  initiateTransfer fault tape inp w = (Ok t, w') ->
  initiateTransferWithRetry fault tape inp retries w = (Ok (Some t), w').
Proof.
  intros E. rewrite initiateTransferWithRetry_eq.
  unfold try_catch, bind, ret. by rewrite E.
Qed.

Lemma retry_on_conflict inp retries w e w1 :
  initiateTransfer fault tape inp w = (Throw e, w1) ->
  code_is "40001" e = true -> retries > 0 ->
  initiateTransferWithRetry fault tape inp retries w =
  initiateTransferWithRetry fault tape inp (retries - 1) (snd (sleep 100 w1)).
Proof.
  intros E Hc Hr. rewrite initiateTransferWithRetry_eq.
  unfold try_catch, bind, ret. rewrite E, Hc. simpl.
  by rewrite bool_decide_eq_true_2.
Qed.

(** What the [catch] block does with an error it does not retry: nothing.
    The method then ends without a [return], and its promise resolves with
    [undefined]. *)
Lemma retry_swallows inp retries w e w1 :
  initiateTransfer fault tape inp w = (Throw e, w1) ->
  code_is "40001" e && bool_decide (retries > 0) = false ->
  initiateTransferWithRetry fault tape inp retries w = (Ok None, w1).
Proof.
  intros E Hc. rewrite initiateTransferWithRetry_eq.
  unfold try_catch, bind, ret. by rewrite E, Hc.
Qed.

(** The promise of [initiateTransferWithRetry] never rejects. *)
Lemma retry_never_throws inp retries w :
  exists o, fst (initiateTransferWithRetry fault tape inp retries w) = Ok o.
Proof.
  remember (Z.to_nat retries) as n eqn:Hn.
  revert retries w Hn. induction n as [n IH] using lt_wf_ind.
  intros retries w ->.
  destruct (initiateTransfer fault tape inp w) as [[t|e] w1] eqn:E.
  - erewrite retry_on_success by done. by eexists.
  - destruct (code_is "40001" e && bool_decide (retries > 0)) eqn:Hc.
    + apply andb_prop in Hc as [Hc Hr]. apply bool_decide_eq_true in Hr.
      erewrite retry_on_conflict by done.
      eapply (IH (Z.to_nat (retries - 1))); [lia|done].
    + erewrite retry_swallows by done. by eexists.
Qed.

Lemma sleep_trace ms w :
  trace (snd (sleep ms w)) = trace w ++ [EvSleep ms] /\
  clock (snd (sleep ms w)) = clock w + ms /\
  committed (snd (sleep ms w)) = committed w.
Proof. done. Qed.

(** [n] conflicts and then a success: the wrapper returns that success
    whenever [retries] allows [n] retries. *)
Lemma conflict_run_returns inp n w t w' :
  conflict_run fault tape inp n w t w' ->
  forall retries, Z.of_nat n <= retries ->
  initiateTransferWithRetry fault tape inp retries w = (Ok (Some t), w') /\
  exists evs, trace w' = trace w ++ evs /\
    attempts evs = S n /\ total_sleep evs = 100 * Z.of_nat n.
Proof.
  induction 1 as [w t w' E|n w e w1 t w' E Hc Hrun IH]; intros retries Hle.
  - split; [by apply retry_on_success|].
    destruct (attempt_trace fault tape inp w) as (evs & Ht & Ha & Hs).
    rewrite E in Ht. simpl in Ht. exists evs. split; [done|]. split; [done|lia].
  - destruct (IH (retries - 1)) as (Hret & evs2 & Ht2 & Ha2 & Hs2); [lia|].
    split; [rewrite <- Hret; eapply retry_on_conflict; [done|done|lia]|].
    destruct (attempt_trace fault tape inp w) as (evs1 & Ht1 & Ha1 & Hs1).
    rewrite E in Ht1. simpl in Ht1.
    exists (evs1 ++ [EvSleep 100] ++ evs2). split.
    + rewrite Ht2. simpl. rewrite Ht1. by rewrite <- !app_assoc.
    + rewrite !attempts_app, !total_sleep_app, Ha1, Ha2, Hs1, Hs2.
      split; [by vm_compute|]. simpl. lia.
Qed.

(** C4. After an attempt that failed with an error of code 40001, and with
    [retries > 0], the wrapper pauses 100ms and continues as itself with
    [retries - 1]. Hence, when the first [n] attempts fail with a conflict,
    [n < retries], and the next attempt succeeds, the wrapper returns that
    attempt's transfer after exactly [n + 1] attempts and [n] pauses of
    100ms. *)
Theorem retry_on_conflict_then_success inp retries :
  (forall w e w1,
     initiateTransfer fault tape inp w = (Throw e, w1) ->
     code_is "40001" e = true -> retries > 0 ->
     initiateTransferWithRetry fault tape inp retries w =
     initiateTransferWithRetry fault tape inp (retries - 1) (snd (sleep 100 w1))
     /\ events_since w1 (snd (sleep 100 w1)) = [EvSleep 100]
     /\ clock (snd (sleep 100 w1)) = clock w1 + 100) /\
  (forall n w t w',
     conflict_run fault tape inp n w t w' ->
     Z.of_nat n < retries ->
     initiateTransferWithRetry fault tape inp retries w = (Ok (Some t), w') /\
     attempts (events_since w w') = (n + 1)%nat /\
     total_sleep (events_since w w') = 100 * Z.of_nat n).
Proof.
  split.
  - intros w e w1 E Hc Hr. split; [by eapply retry_on_conflict|].
    split; [by apply events_since_app|done].
  - intros n w t w' Hrun Hlt.
    destruct (conflict_run_returns inp n w t w' Hrun retries)
      as (Hret & evs & Ht & Ha & Hs); [lia|].
    rewrite (events_since_app w w' evs Ht).
    split; [done|]. split; [lia|done].
Qed.

End RetryProperties.

(** * The reference of a transfer *)

Section ReferenceProperties.

Context {userService : UserService} {accountService : AccountService}.
Variable fault : nat -> Step -> option Error.
Variable tape : nat -> nat.

(** An attempt that offers a reference to the store has generated it from
    the position the source was at when the attempt began, and leaves the
    source after the bytes drawn for it. *)
Lemma attempt_saved_reference inp w ref :
  EvSave ref ∈ events_since w (snd (initiateTransfer fault tape inp w)) ->
  ref = String.string_of_list_ascii (fst (generate tape 12 alphanumeric (rng w)))
  /\ rng (snd (initiateTransfer fault tape inp w))
     = snd (generate tape 12 alphanumeric (rng w)).
Proof.
  unfold events_since. unfold_attempt. split_attempt;
    rewrite <- ?app_assoc; simpl; rewrite drop_app_length;
    intros Hin; elem_cases; done.
Qed.

Lemma attempt_success_saves inp w t w' :
  initiateTransfer fault tape inp w = (Ok t, w') ->
  EvSave (reference t) ∈ events_since w w'.
Proof.
  unfold events_since. unfold_attempt. intros Hrun. split_attempt.
  rewrite <- ?app_assoc; simpl; rewrite drop_app_length.
  apply list_elem_of_In. simpl. tauto.
Qed.

(** The source only moves forward. *)
Lemma attempt_rng_mono inp w :
  (rng w <= rng (snd (initiateTransfer fault tape inp w)))%nat.
Proof.
  pose proof (generate_complete tape (rng w)) as [Hg _]. cbv zeta in Hg.
  unfold_attempt. split_attempt; lia.
Qed.

Lemma saved_reference_window inp w ref :
  let w' := snd (initiateTransfer fault tape inp w) in
  EvSave ref ∈ events_since w w' ->
  (rng w + 13 <= rng w')%nat /\
  (12 <= length (filter (fun b => (b < 248)%nat) (drawn tape (rng w) (rng w'))))%nat /\
  ref = token_of_bytes (drawn tape (rng w) (rng w')).
Proof.
  cbv zeta. intros Hin.
  destruct (attempt_saved_reference inp w ref Hin) as [-> ->].
  pose proof (generate_complete tape (rng w)) as (H13 & H12 & Htok).
  cbv zeta in *. done.
Qed.

(** In a run of conflicts that ends in a success, the world before the
    successful attempt, and where the references saved before it came
    from. *)
Lemma conflict_run_last inp n w t w' :
  conflict_run fault tape inp n w t w' ->
  exists w_last evs,
    trace w_last = trace w ++ evs /\
    initiateTransfer fault tape inp w_last = (Ok t, w') /\
    (rng w <= rng w_last)%nat /\
    (forall ref, EvSave ref ∈ evs ->
       exists p q, (rng w <= p)%nat /\ (p + 13 <= q)%nat /\
                   (q <= rng w_last)%nat /\
                   ref = token_of_bytes (drawn tape p q)).
Proof.
  induction 1 as [w t w' E|n w e w1 t w' E Hc Hrun IH].
  - exists w, []. rewrite app_nil_r. repeat split; [done|lia|].
    intros ref Hin. by apply elem_of_nil in Hin.
  - destruct IH as (w_last & evs2 & Ht2 & Hlast & Hrng & Hrefs).
    destruct (attempt_trace fault tape inp w) as (evs1 & Ht1 & _ & _).
    pose proof (attempt_rng_mono inp w) as Hmono.
    rewrite E in Ht1, Hmono. simpl in Ht1, Hmono, Ht2, Hrng.
    exists w_last, (evs1 ++ [EvSleep 100] ++ evs2).
    split; [rewrite Ht2, Ht1; by rewrite <- !app_assoc|].
    split; [done|]. split; [lia|].
    intros ref Hin. rewrite !elem_of_app in Hin.
    destruct Hin as [Hin|[Hin|Hin]].
    + pose proof (saved_reference_window inp w ref) as Hwin.
      cbv zeta in Hwin. rewrite E in Hwin. simpl in Hwin.
      rewrite (events_since_app w w1 evs1 Ht1) in Hwin.
      destruct (Hwin Hin) as (H13 & _ & ->).
      exists (rng w), (rng w1). repeat split; [lia|lia|lia].
    + apply list_elem_of_singleton in Hin. discriminate.
    + destruct (Hrefs ref Hin) as (p & q & Hp & Hq & Hq' & ->).
      simpl in Hp. exists p, q. repeat split; lia.
Qed.

(** C7. The reference that an attempt offers to the store, and so the
    reference of the transfer it returns, is the token spelled by the bytes
    that this attempt has drawn from the random source: the first twelve
    of them below 248, each taken modulo 62 as an index into the digits and
    letters. It has twelve characters, all of them digits or letters, and
    at least thirteen bytes were drawn for it. The attempts of a retried
    transfer draw one after the other: the reference of the transfer that
    is finally returned is spelled by the bytes of the last attempt, and
    each reference saved by an earlier attempt by bytes drawn before
    those. *)
Theorem reference_fresh_per_attempt inp :
  (forall w ref,
     let w' := snd (initiateTransfer fault tape inp w) in
     EvSave ref ∈ events_since w w' ->
     (rng w + 13 <= rng w')%nat /\
     ref = token_of_bytes (drawn tape (rng w) (rng w')) /\
     String.length ref = 12%nat /\
     Forall (fun c => is_alphanumeric c = true)
       (String.list_ascii_of_string ref)) /\
  (forall w t w',
     initiateTransfer fault tape inp w = (Ok t, w') ->
     EvSave (reference t) ∈ events_since w w') /\
  (forall n w t w',
     conflict_run fault tape inp n w t w' ->
     exists w_last,
       initiateTransfer fault tape inp w_last = (Ok t, w') /\
       (rng w <= rng w_last)%nat /\
       reference t = token_of_bytes (drawn tape (rng w_last) (rng w')) /\
       (forall ref, EvSave ref ∈ events_since w w_last ->
          exists p q, (rng w <= p)%nat /\ (p + 13 <= q)%nat /\
                      (q <= rng w_last)%nat /\
                      ref = token_of_bytes (drawn tape p q))).
Proof.
  split; [|split].
  - intros w ref w' Hin.
    destruct (saved_reference_window inp w ref Hin) as (H13 & H12 & ->).
    destruct (token_of_bytes_chars _ H12) as [Hlen Hall].
    done.
  - apply attempt_success_saves.
  - intros n w t w' Hrun.
    destruct (conflict_run_last inp n w t w' Hrun)
      as (w_last & evs & Ht & Hlast & Hrng & Hrefs).
    exists w_last. split; [done|]. split; [done|]. split.
    + pose proof (saved_reference_window inp w_last (reference t)) as Hwin.
      cbv zeta in Hwin. rewrite Hlast in Hwin. simpl in Hwin.
      apply Hwin. by eapply attempt_success_saves.
    + intros ref Hin. apply Hrefs.
      by rewrite (events_since_app w w_last evs Ht) in Hin.
Qed.

End ReferenceProperties.

(** * The engine on the ledger *)

Lemma load_user_account s id row u :
  load_user s id row = Some u ->
  accounts s !! acc_id (account u) = Some (balance (account u)).
Proof.
  unfold load_user. destruct (accounts s !! row_account row) eqn:E; [|done].
  by intros [= <-].
Qed.

Lemma findByUserId_account s id u :
  findByUserId id s = Some u ->
  accounts s !! acc_id (account u) = Some (balance (account u)).
Proof.
  simpl. destruct (users s !! id); [|done]. apply load_user_account.
Qed.

Lemma debitAccount_balance s id amt acc s1 :
  debitAccount id amt s = inr (acc, s1) ->
  exists b, accounts s !! id = Some b /\ amt <= b /\
    acc = mkAccount id (b - amt) /\ s1 = set_balance id (b - amt) s.
Proof.
  simpl. destruct (accounts s !! id) as [b|]; [|done].
  destruct (b <? amt) eqn:Hlt; [done|]. intros [= <- <-].
  exists b. apply Z.ltb_ge in Hlt. done.
Qed.

(** When no other request commits between the lookup and the debit, the
    record of a successful attempt on the ledger has, as [balanceBefore],
    the balance that the sender's account holds in the store when the
    debit is issued, and as [balanceAfter] the balance of the account that
    the debit returns; the two differ by the amount. *)
Theorem transfer_balance_snapshots fault tape inp w t w' :
  initiateTransfer fault tape inp w = (Ok t, w') ->
  exists su acc s1,
    findByUserId (inp_sender inp) (committed w) = Some su /\
    accounts (committed w) !! acc_id (account su) = Some (balanceBefore t) /\
    debitAccount (acc_id (account su)) (inp_amount inp) (committed w)
      = inr (acc, s1) /\
    balanceAfter t = balance acc /\
    accounts s1 !! acc_id (account su) = Some (balanceAfter t) /\
    t ∈ transfers (committed w') /\
    balanceAfter t = balanceBefore t - amount t.
Proof.
  intros Hrun.
  destruct (attempt_success_inv fault tape inp w t w' Hrun)
    as (su & ru & sacc & s1 & racc & s2 & Hsu & Hru & Hd & Hc & Ht & Hw).
  pose proof (findByUserId_account _ _ _ Hsu) as Hbal.
  pose proof (debitAccount_balance _ _ _ _ _ Hd) as (b & Hb & Hle & Hacc & Hs1).
  assert (b = balance (account su)) as -> by congruence.
  exists su, sacc, s1.
  split; [done|]. split; [by rewrite Ht|]. split; [done|].
  split; [by rewrite Ht|].
  split; [rewrite Ht, Hs1, Hacc; simpl; by rewrite lookup_insert_eq|].
  split; [rewrite Hw; apply elem_of_insert_transfer|].
  by rewrite Ht, Hacc.
Qed.

(** ** Scenarios *)

(** Sender balance 500, transfer of 200 to a receiver holding 50. *)
Example transfer_200 :
  let r := initiateTransfer no_fault tape0 (mkInput 1 200 "bob") world0 in
  fst r = Ok (mkTransfer "3ahovCJQX4bi" alice bob 200 500 300 1000) /\
  accounts (committed (snd r)) !! 10 = Some 300 /\
  accounts (committed (snd r)) !! 20 = Some 250.
Proof. by vm_compute. Qed.

(** Sender balance 500, transfer of 600. *)
Example transfer_600 :
  let r := initiateTransfer no_fault tape0 (mkInput 1 600 "bob") world0 in
  fst r = Throw InsufficientFunds /\ committed (snd r) = store0.
Proof. by vm_compute. Qed.

Lemma initiateTransfer_all_or_nothing_witness :
  exists t w',
    initiateTransfer no_fault tape0 (mkInput 1 200 "bob") world0 = (Ok t, w') /\
    t ∈ transfers (committed w') /\
    EvCredit 20 200 ∈ events_since world0 w' /\
    exists sacc s1, debitAccount 10 200 store0 = inr (sacc, s1).
Proof.
  pose proof (initiateTransfer_all_or_nothing no_fault tape0
                (mkInput 1 200 "bob") world0) as [Hall Horder].
  destruct (initiateTransfer no_fault tape0 (mkInput 1 200 "bob") world0)
    as [[t|e] w'] eqn:E; [|by vm_compute in E].
  destruct Hall as (su & ru & sacc & s1 & racc & s2 & Hsu & _ & Hd & _ & _ & Hin).
  exists t, w'. split; [done|]. split; [done|].
  assert (EvCredit 20 200 ∈ events_since world0 w') as Hcredit.
  { vm_compute in E. injection E as <- <-.
    apply list_elem_of_In. vm_compute. tauto. }
  split; [done|].
  vm_compute in Hsu. injection Hsu as <-. eauto.
Defined.

Lemma initiateTransfer_recipient_not_found_witness :
  exists w',
    initiateTransfer no_fault tape0 (mkInput 1 200 "nouser") world0
      = (Throw (BadRequestException "Recipient not found"), w') /\
    committed w' = store0 /\
    events_since world0 w'
      = [EvBegin; EvFindByUserId 1; EvFindByUsername "nouser"; EvRollback].
Proof.
  apply (initiateTransfer_recipient_not_found no_fault tape0
           (mkInput 1 200 "nouser") world0).
  reflexivity.
Defined.

Lemma initiateTransfer_amount_witness :
  exists t w',
    initiateTransfer no_fault tape0 (mkInput 1 200 "bob") world0 = (Ok t, w') /\
    amount t = 200.
Proof.
  eexists _, _. split; [by vm_compute|].
  eapply (initiateTransfer_amount no_fault tape0 (mkInput 1 200 "bob") world0).
  by vm_compute.
Defined.

Lemma transfer_balance_snapshots_witness :
  exists t w',
    initiateTransfer no_fault tape0 (mkInput 1 200 "bob") world0 = (Ok t, w') /\
    balanceAfter t = balanceBefore t - amount t.
Proof.
  eexists _, _. split; [by vm_compute|].
  edestruct (transfer_balance_snapshots no_fault tape0 (mkInput 1 200 "bob")
               world0) as (su & acc & s1 & H); [by vm_compute|].
  apply H.
Defined.

(** Two conflicts at commit, then a commit that goes through. *)
Lemma conflict_run_2 :
  exists t w',
    conflict_run (conflicts 2) tape0 (mkInput 1 200 "bob") 2 world0 t w'.
Proof.
  eexists _, _.
  eapply run_conflict; [by vm_compute|reflexivity|].
  eapply run_conflict; [by vm_compute|reflexivity|].
  eapply run_success. by vm_compute.
Defined.

Lemma retry_on_conflict_then_success_witness :
  exists t w',
    initiateTransferWithRetry (conflicts 2) tape0 (mkInput 1 200 "bob") 3 world0
      = (Ok (Some t), w') /\
    attempts (events_since world0 w') = 3%nat /\
    total_sleep (events_since world0 w') = 200.
Proof.
  destruct conflict_run_2 as (t & w' & Hrun).
  exists t, w'.
  apply (proj2 (retry_on_conflict_then_success (conflicts 2) tape0
                  (mkInput 1 200 "bob") 3) 2%nat world0 t w' Hrun).
  lia.
Defined.

(** C8, as stated, fails: a transfer of amount 0 is accepted, and its record
    is persisted with an amount that is not positive. *)
Lemma zero_amount_persisted :
  let r := initiateTransfer no_fault tape0 (mkInput 1 0 "bob") world0 in
  exists t,
    fst r = Ok t /\ t ∈ transfers (committed (snd r)) /\
    amount t = 0 /\ ~ amount t > 0.
Proof.
  eexists. split; [by vm_compute|].
  split; [apply list_elem_of_In; vm_compute; tauto|].
  split; [done|]. simpl. lia.
Qed.

(** C2 (defect). Every attempt is refused with a serialization failure.
    With the default [retries = 3] the wrapper makes four attempts, and after the last
    one its promise resolves with [undefined]: the final error is swallowed
    by the [catch] block instead of being thrown. *)
Theorem retries_exhausted_resolves_undefined :
  let r := initiateTransferWithRetry always_conflict tape0
             (mkInput 1 200 "bob") defaultRetries world0 in
  fst r = Ok None /\
  attempts (trace (snd r)) = 4%nat /\
  committed (snd r) = store0 /\
  fst (initiateTransfer always_conflict tape0 (mkInput 1 200 "bob") world0)
    = Throw (QueryFailedError "40001").
Proof. by vm_compute. Qed.

(** C3 (defect). A transfer to an unknown handle: the single attempt throws
    [BadRequestException('Recipient not found')], no further attempt is
    made, and the wrapper's promise resolves with [undefined] instead of
    passing the error on. The same happens for insufficient funds. *)
Theorem business_error_resolves_undefined :
  let r := initiateTransferWithRetry no_fault tape0
             (mkInput 1 200 "nouser") defaultRetries world0 in
  let r' := initiateTransferWithRetry no_fault tape0
              (mkInput 1 600 "bob") defaultRetries world0 in
  fst (initiateTransfer no_fault tape0 (mkInput 1 200 "nouser") world0)
    = Throw (BadRequestException "Recipient not found") /\
  fst r = Ok None /\ attempts (trace (snd r)) = 1%nat /\
  fst (initiateTransfer no_fault tape0 (mkInput 1 600 "bob") world0)
    = Throw InsufficientFunds /\
  fst r' = Ok None /\ attempts (trace (snd r')) = 1%nat.
Proof. by vm_compute. Qed.

(** * Properties of the listing *)

(** The filter, by cases on the two tests of the source. *)
Lemma buildFilter_cases (q : Query) :
  buildFilter q =
  if truthy (startPeriodDatetime q) && truthy (endPeriodDatetime q)
  then {["createdAt" := Between (value (startPeriodDatetime q))
                                (value (endPeriodDatetime q))]}
  else if truthy (endPeriodDatetime q)
  then {["createdAt" := LessThanOrEqual (value (endPeriodDatetime q))]}
  else if truthy (startPeriodDatetime q)
  then {["createdAt" := MoreThanOrEqual (value (startPeriodDatetime q))]}
  else ∅.
Proof.
  unfold buildFilter.
  destruct (truthy (startPeriodDatetime q)), (truthy (endPeriodDatetime q));
    simpl; rewrite ?insert_insert_eq, ?insert_empty; reflexivity.
Qed.


(** The bounds as the caller gives them: strings that are not empty. *)
Lemma buildFilter_present (a b : string) :
  a <> "" -> b <> "" ->
  buildFilter (mkQuery (Some a) (Some b)) = {["createdAt" := Between a b]} /\
  buildFilter (mkQuery None (Some b)) = {["createdAt" := LessThanOrEqual b]} /\
  buildFilter (mkQuery (Some a) None) = {["createdAt" := MoreThanOrEqual a]} /\
  buildFilter (mkQuery None None) = ∅.
Proof.
  intros Ha Hb. rewrite !buildFilter_cases. simpl.
  rewrite !bool_decide_eq_false_2 by done. done.
Qed.

Section ListingProperties.

Variable timestamp : string -> Z.

Lemma find_where (u : Z) (q : Query) (t : Transfer) :
  where_holds timestamp
    (qb_wheres
       (andWhere (sender_or_receiver u)
          (where_ (buildFilter q) (createQueryBuilder "transfer")))) t
  = listed timestamp u q t.
Proof.
  unfold listed, in_range, where_holds, where_, andWhere,
    sender_or_receiver, sent_by, received_by. simpl.
  rewrite buildFilter_cases.
  destruct (truthy (startPeriodDatetime q)), (truthy (endPeriodDatetime q));
    simpl;
    rewrite ?map_to_list_singleton, ?map_to_list_empty,
      ?lookup_singleton_eq, ?lookup_empty; simpl;
    rewrite ?andb_true_r, ?orb_false_r; reflexivity.
Qed.

(** What [find] returns: a page of the selected rows, newest first, and the
    number of selected rows. *)
Lemma find_result (opts : ServiceMethodOptions) (s : Store) :
  let selected :=
    filter (fun t => listed timestamp (user_id (currentUser opts)) (query opts) t
                     = true) (transfers s) in
  find timestamp opts s =
  mkPaginated
    (page (pg_skip (pagination opts)) (pg_take (pagination opts))
       (sort_desc selected))
    (length selected).
Proof.
  cbv zeta. unfold find, getManyAndCount. simpl.
  erewrite list_filter_iff; [reflexivity|].
  intros t. simpl.
  pose proof (find_where (user_id (currentUser opts)) (query opts) t) as H.
  unfold andWhere, where_ in H. simpl in H.
  unfold where_. simpl. by rewrite H.
Qed.

Lemma elem_of_insert_desc (x t : Transfer) (l : list Transfer) :
  x ∈ insert_desc t l <-> x = t \/ x ∈ l.
Proof.
  induction l as [|y l IH]; simpl.
  - rewrite list_elem_of_singleton, elem_of_nil. tauto.
  - destruct (createdAt y <=? createdAt t);
      rewrite !elem_of_cons, ?IH; tauto.
Qed.

Lemma elem_of_sort_desc (x : Transfer) (l : list Transfer) :
  x ∈ sort_desc l <-> x ∈ l.
Proof.
  induction l as [|y l IH]; simpl; [done|].
  rewrite elem_of_insert_desc, IH, elem_of_cons. tauto.
Qed.

Lemma insert_desc_sorted (t : Transfer) (l : list Transfer) :
  newest_first l -> newest_first (insert_desc t l).
Proof.
  unfold newest_first. induction l as [|y l IH]; simpl; intros Hs.
  - repeat constructor.
  - apply StronglySorted_inv in Hs as [Hl Hy].
    destruct (createdAt y <=? createdAt t) eqn:Hle.
    + apply Z.leb_le in Hle. constructor; [by constructor|].
      constructor; [done|].
      eapply Forall_impl; [exact Hy|]. simpl. intros; lia.
    + apply Z.leb_gt in Hle. constructor; [by apply IH|].
      apply Forall_forall. intros x Hx.
      apply elem_of_insert_desc in Hx as [->|Hx]; [lia|].
      rewrite Forall_forall in Hy. by apply Hy.
Qed.

Lemma sort_desc_sorted (l : list Transfer) : newest_first (sort_desc l).
Proof.
  induction l as [|y l IH]; simpl; [constructor|by apply insert_desc_sorted].
Qed.

Lemma page_sublist skip take_n (l : list Transfer) :
  page skip take_n l `sublist_of` l.
Proof.
  unfold page. destruct skip as [n|], take_n as [[|m]|]; try done;
    try apply sublist_drop; try apply sublist_take.
  etrans; [apply sublist_take|apply sublist_drop].
Qed.

Lemma newest_first_sublist (l1 l2 : list Transfer) :
  l1 `sublist_of` l2 -> newest_first l2 -> newest_first l1.
Proof.
  unfold newest_first. induction 1 as [|x l1 l2 Hsub IH|x l1 l2 Hsub IH];
    intros Hs; [done| |].
  - apply StronglySorted_inv in Hs as [Hl Hx]. constructor; [by apply IH|].
    apply Forall_forall. intros y Hy. rewrite Forall_forall in Hx.
    apply Hx. by eapply elem_of_sublist.
  - apply StronglySorted_inv in Hs as [Hl _]. by apply IH.
Qed.

(** X11. The parts of the listing contract that hold: every returned
    transfer is a stored one with the viewer as sender or receiver, the page
    is ordered newest first, and the count does not depend on the
    pagination. *)
Lemma find_viewer_order_count (u : User) (q : Query) (p p' : Pagination)
    (s : Store) :
  (forall t, t ∈ records (find timestamp (mkOptions u q p) s) ->
     t ∈ transfers s /\
     (user_id (sender t) = user_id u \/ user_id (receiver t) = user_id u)) /\
  newest_first (records (find timestamp (mkOptions u q p) s)) /\
  count (find timestamp (mkOptions u q p) s)
    = count (find timestamp (mkOptions u q p') s).
Proof.
  rewrite !find_result. simpl. split; [|split; [|done]].
  - intros t Hin.
    eapply elem_of_sublist in Hin; [|apply page_sublist].
    apply elem_of_sort_desc, list_elem_of_filter in Hin as [Hl Hin].
    split; [done|]. unfold listed, sent_by, received_by in Hl.
    apply orb_prop in Hl as [Hl|Hl].
    + apply andb_prop in Hl as [_ Hl]. apply bool_decide_eq_true in Hl. auto.
    + apply bool_decide_eq_true in Hl. auto.
  - eapply newest_first_sublist; [apply page_sublist|apply sort_desc_sorted].
Qed.

(** A transfer that the viewer received is listed whatever its date. *)
Lemma find_lists_received (u : User) (q : Query) (s : Store) (t : Transfer) :
  t ∈ transfers s -> user_id (receiver t) = user_id u ->
  t ∈ records (find timestamp (mkOptions u q (mkPagination None None)) s).
Proof.
  intros Hin Hrecv. rewrite find_result. simpl.
  apply elem_of_sort_desc, list_elem_of_filter. split; [|done].
  unfold listed, received_by. rewrite (bool_decide_eq_true_2 _ Hrecv).
  apply orb_true_r.
Qed.

End ListingProperties.

(** C9 (defect). bob lists his transfers from time 10 on. The only transfer
    of his that was created in that range is [t20]; [find] also returns
    [t5], which he received at time 5, and counts it: the date condition
    is joined to the sender test only, because the text given to
    [andWhere] contains an OR and is appended without parentheses. For
    alice, who sent [t5], the same query leaves [t5] out, but returns
    [t7], which she received at time 7. *)
Theorem find_date_range_skips_received :
  find seconds (mkOptions bob (mkQuery (Some "10") None) first_page) store3
    = mkPaginated [t20; t5] 2 /\
  seconds "10" = 10 /\ createdAt t5 = 5 /\
  find seconds (mkOptions alice (mkQuery (Some "10") None) first_page) store3
    = mkPaginated [t20; t7] 2.
Proof. by vm_compute. Qed.

(** * Further properties of one attempt *)

Section AttemptEdgeCases.

Context {userService : UserService} {accountService : AccountService}.
Variable fault : nat -> Step -> option Error.
Variable tape : nat -> nat.

(** X1. The sender is looked up but tested only by use: when the sender
    does not resolve and the receiver does, reading
    [senderAccount.account.balance] throws a [TypeError]. Nothing has been
    issued by then: the events are the two lookups, no random draw is
    taken, and the committed store is unchanged. *)
Theorem initiateTransfer_sender_missing inp w ru :
  findByUserId (inp_sender inp) (committed w) = None ->
  findByUsername (inp_receiver inp) true (committed w) = Some ru ->
  exists w',
    initiateTransfer fault tape inp w = (Throw TypeError, w') /\
    committed w' = committed w /\
    rng w' = rng w /\
    events_since w w'
      = [EvBegin; EvFindByUserId (inp_sender inp);
         EvFindByUsername (inp_receiver inp); EvRollback].
Proof.
  intros Hs Hr. unfold_attempt. simpl. rewrite Hs, Hr. simpl.
  eexists. repeat split.
  apply events_since_app. simpl. by rewrite <- !app_assoc.
Qed.

(** X2. When the debit fails, by an error of the account service or by the
    datastore aborting it, the attempt throws that very error. No credit is
    issued, no reference is drawn, nothing is saved, and the committed
    store is unchanged. *)
Theorem initiateTransfer_debit_fails inp w su ru e :
  findByUserId (inp_sender inp) (committed w) = Some su ->
  findByUsername (inp_receiver inp) true (committed w) = Some ru ->
  (fault (txseq w) AtDebit = Some e \/
   (fault (txseq w) AtDebit = None /\
    debitAccount (acc_id (account su)) (inp_amount inp) (committed w) = inl e)) ->
  exists w',
    initiateTransfer fault tape inp w = (Throw e, w') /\
    committed w' = committed w /\
    rng w' = rng w /\
    events_since w w'
      = [EvBegin; EvFindByUserId (inp_sender inp);
         EvFindByUsername (inp_receiver inp);
         EvDebit (acc_id (account su)) (inp_amount inp); EvRollback].
Proof.
  intros Hs Hr Hfail. unfold_attempt. simpl. rewrite Hs, Hr. simpl.
  destruct Hfail as [Hf|[Hf Hd]]; rewrite Hf; [|rewrite Hd];
    (eexists; repeat split;
     apply events_since_app; simpl; by rewrite <- !app_assoc).
Qed.

(** X3. When the credit fails after a debit that went through, the attempt
    throws the credit's error and the debit is not kept: the committed
    store is the one before the attempt. No reference is drawn and nothing
    is saved. *)
Theorem initiateTransfer_credit_fails inp w su ru sacc s1 e :
  findByUserId (inp_sender inp) (committed w) = Some su ->
  findByUsername (inp_receiver inp) true (committed w) = Some ru ->
  fault (txseq w) AtDebit = None ->
  debitAccount (acc_id (account su)) (inp_amount inp) (committed w)
    = inr (sacc, s1) ->
  (fault (txseq w) AtCredit = Some e \/
   (fault (txseq w) AtCredit = None /\
    creditAccount (acc_id (account ru)) (inp_amount inp) s1 = inl e)) ->
  exists w',
    initiateTransfer fault tape inp w = (Throw e, w') /\
    committed w' = committed w /\
    rng w' = rng w /\
    events_since w w'
      = [EvBegin; EvFindByUserId (inp_sender inp);
         EvFindByUsername (inp_receiver inp);
         EvDebit (acc_id (account su)) (inp_amount inp);
         EvCredit (acc_id (account ru)) (inp_amount inp); EvRollback].
Proof.
  intros Hs Hr Hfd Hd Hfail. unfold_attempt. simpl.
  rewrite Hs, Hr. simpl. rewrite Hfd, Hd. simpl.
  destruct Hfail as [Hf|[Hf Hc]]; rewrite Hf; [|rewrite Hc];
    (eexists; repeat split;
     apply events_since_app; simpl; by rewrite <- !app_assoc).
Qed.

(** X4. The record of a successful attempt holds the two users as the
    lookups returned them, before the debit: the balance inside the
    record's sender is the balance before the transfer, which is also the
    record's [balanceBefore]. *)
Theorem initiateTransfer_record_users inp w t w' :
  initiateTransfer fault tape inp w = (Ok t, w') ->
  findByUserId (inp_sender inp) (committed w) = Some (sender t) /\
  findByUsername (inp_receiver inp) true (committed w) = Some (receiver t) /\
  balance (account (sender t)) = balanceBefore t.
Proof.
  intros Hrun.
  destruct (attempt_success_inv fault tape inp w t w' Hrun)
    as (su & ru & sacc & s1 & racc & s2 & Hsu & Hru & _ & _ & -> & _).
  done.
Qed.


End AttemptEdgeCases.

Lemma initiateTransfer_sender_missing_witness :
  exists w',
    initiateTransfer no_fault tape0 (mkInput 99 200 "bob") world0
      = (Throw TypeError, w') /\
    committed w' = store0.
Proof.
  destruct (initiateTransfer_sender_missing no_fault tape0
              (mkInput 99 200 "bob") world0 bob) as (w' & H1 & H2 & _);
    [reflexivity|reflexivity|].
  exists w'. by split.
Defined.

Lemma initiateTransfer_debit_fails_witness :
  exists w',
    initiateTransfer no_fault tape0 (mkInput 1 600 "bob") world0
      = (Throw InsufficientFunds, w') /\
    committed w' = store0.
Proof.
  destruct (initiateTransfer_debit_fails no_fault tape0
              (mkInput 1 600 "bob") world0 alice bob InsufficientFunds)
    as (w' & H1 & H2 & _); [reflexivity|reflexivity| |].
  - right. split; reflexivity.
  - exists w'. by split.
Defined.

Lemma initiateTransfer_credit_fails_witness :
  exists w',
    initiateTransfer credit_fault tape0 (mkInput 1 200 "bob") world0
      = (Throw (QueryFailedError "08006"), w') /\
    committed w' = store0.
Proof.
  destruct (initiateTransfer_credit_fails credit_fault tape0
              (mkInput 1 200 "bob") world0 alice bob
              (mkAccount 10 300) (set_balance 10 300 store0)
              (QueryFailedError "08006"))
    as (w' & H1 & H2 & _);
    [reflexivity|reflexivity|reflexivity|reflexivity| |].
  - left. reflexivity.
  - exists w'. by split.
Defined.

Lemma initiateTransfer_record_users_witness :
  exists t w',
    initiateTransfer no_fault tape0 (mkInput 1 200 "bob") world0 = (Ok t, w') /\
    balance (account (sender t)) = balanceBefore t.
Proof.
  eexists _, _. split; [by vm_compute|].
  eapply (initiateTransfer_record_users no_fault tape0 (mkInput 1 200 "bob")
            world0).
  by vm_compute.
Defined.


(** * Further properties of the retry wrapper *)

Section RetryBounds.

Context {userService : UserService} {accountService : AccountService}.
Variable fault : nat -> Step -> option Error.
Variable tape : nat -> nat.

Lemma attempt_failure_committed inp w e w1 :
  initiateTransfer fault tape inp w = (Throw e, w1) ->
  committed w1 = committed w.
Proof. unfold_attempt. intros Hrun. by split_attempt. Qed.

(** X6. Retrying never applies a transfer twice. Whatever the number of
    attempts, when the promise resolves with a transfer the committed
    store is the result of a single successful attempt run on the store
    the wrapper started from; in every other outcome the committed store
    is the one it started from: failed attempts leave nothing behind. *)
Theorem retry_applies_at_most_once inp retries w :
  match initiateTransferWithRetry fault tape inp retries w with
  | (Ok (Some t), w') =>
      exists w0, committed w0 = committed w /\
                 initiateTransfer fault tape inp w0 = (Ok t, w')
  | (_, w') => committed w' = committed w
  end.
Proof.
  remember (Z.to_nat retries) as n eqn:Hn.
  revert retries w Hn. induction n as [n IH] using lt_wf_ind.
  intros retries w ->.
  destruct (initiateTransfer fault tape inp w) as [[t|e] w1] eqn:E.
  - erewrite retry_on_success by done. by exists w.
  - pose proof (attempt_failure_committed inp w e w1 E) as Hc1.
    destruct (code_is "40001" e && bool_decide (retries > 0)) eqn:Hc.
    + apply andb_prop in Hc as [Hc Hr]. apply bool_decide_eq_true in Hr.
      erewrite retry_on_conflict by done.
      specialize (IH (Z.to_nat (retries - 1)) ltac:(lia) (retries - 1)
                     (snd (sleep 100 w1)) eq_refl).
      destruct (initiateTransferWithRetry fault tape inp (retries - 1)
                  (snd (sleep 100 w1))) as [[[t|]|e'] w'];
        [|simpl in IH; congruence|simpl in IH; congruence].
      destruct IH as (w0 & Hw0 & Hrun). exists w0. split; [|done].
      simpl in Hw0. congruence.
    + erewrite retry_swallows by done. done.
Qed.

Lemma retry_trace inp retries w :
  exists evs,
    trace (snd (initiateTransferWithRetry fault tape inp retries w))
      = trace w ++ evs /\
    (1 <= attempts evs <= Z.to_nat retries + 1)%nat /\
    total_sleep evs = 100 * (Z.of_nat (attempts evs) - 1).
Proof.
  remember (Z.to_nat retries) as n eqn:Hn.
  revert retries w Hn. induction n as [n IH] using lt_wf_ind.
  intros retries w ->.
  destruct (attempt_trace fault tape inp w) as (evs1 & Ht1 & Ha1 & Hs1).
  destruct (initiateTransfer fault tape inp w) as [[t|e] w1] eqn:E;
    simpl in Ht1.
  - erewrite retry_on_success by done. exists evs1. simpl.
    split; [done|]. rewrite Ha1, Hs1. lia.
  - destruct (code_is "40001" e && bool_decide (retries > 0)) eqn:Hc.
    + apply andb_prop in Hc as [Hc Hr]. apply bool_decide_eq_true in Hr.
      erewrite retry_on_conflict by done.
      destruct (IH (Z.to_nat (retries - 1)) ltac:(lia) (retries - 1)
                   (snd (sleep 100 w1)) eq_refl)
        as (evs2 & Ht2 & Ha2 & Hs2).
      exists (evs1 ++ [EvSleep 100] ++ evs2). split.
      * rewrite Ht2. simpl. rewrite Ht1. by rewrite <- !app_assoc.
      * rewrite !attempts_app, !total_sleep_app, Ha1, Hs1, Hs2.
        change (attempts [EvSleep 100]) with 0%nat.
        change (total_sleep [EvSleep 100]) with 100. lia.
    + erewrite retry_swallows by done. exists evs1. simpl.
      split; [done|]. rewrite Ha1, Hs1. lia.
Qed.

(** X7. The wrapper makes at least one attempt and at most [retries + 1]
    (exactly one when [retries] is zero or negative), and it sleeps 100ms
    between two attempts only: the total pause is 100ms times the number of
    attempts less one. *)
Theorem retry_attempts_bounded inp retries w :
  let w' := snd (initiateTransferWithRetry fault tape inp retries w) in
  (1 <= attempts (events_since w w') <= Z.to_nat retries + 1)%nat /\
  total_sleep (events_since w w')
    = 100 * (Z.of_nat (attempts (events_since w w')) - 1) /\
  (retries <= 0 -> attempts (events_since w w') = 1%nat).
Proof.
  cbv zeta. destruct (retry_trace inp retries w) as (evs & Ht & Ha & Hs).
  rewrite (events_since_app _ _ _ Ht). split; [done|]. split; [done|]. lia.
Qed.

Lemma exhausted_run_resolves inp n w w' :
  exhausted_run fault tape inp n w w' ->
  initiateTransferWithRetry fault tape inp (Z.of_nat n) w = (Ok None, w') /\
  committed w' = committed w /\
  exists evs, trace w' = trace w ++ evs /\
    attempts evs = S n /\ total_sleep evs = 100 * Z.of_nat n.
Proof.
  induction 1 as [w e w' E Hc|n w e w1 w' E Hc Hrun IH].
  - split; [|split].
    + eapply retry_swallows; [done|]. by rewrite Hc.
    + by eapply attempt_failure_committed.
    + destruct (attempt_trace fault tape inp w) as (evs & Ht & Ha & Hs).
      rewrite E in Ht. simpl in Ht. exists evs. split; [done|].
      split; [done|lia].
  - destruct IH as (Hret & Hcm & evs2 & Ht2 & Ha2 & Hs2). split; [|split].
    + erewrite retry_on_conflict; [|done|done|lia].
      by replace (Z.of_nat (S n) - 1) with (Z.of_nat n) by lia.
    + rewrite Hcm. simpl. by eapply attempt_failure_committed.
    + destruct (attempt_trace fault tape inp w) as (evs1 & Ht1 & Ha1 & Hs1).
      rewrite E in Ht1. simpl in Ht1.
      exists (evs1 ++ [EvSleep 100] ++ evs2). split.
      * rewrite Ht2. simpl. rewrite Ht1. by rewrite <- !app_assoc.
      * rewrite !attempts_app, !total_sleep_app, Ha1, Ha2, Hs1, Hs2.
        change (attempts [EvSleep 100]) with 0%nat.
        change (total_sleep [EvSleep 100]) with 100. lia.
Qed.

(** X8. When [retries + 1] attempts in a row fail with a conflict, the
    wrapper gives up after exactly those attempts and [retries] pauses, and
    its promise resolves with [undefined]; the committed store is the one
    it started from. *)
Theorem retry_exhausted inp n w w' :
  exhausted_run fault tape inp n w w' ->
  initiateTransferWithRetry fault tape inp (Z.of_nat n) w = (Ok None, w') /\
  attempts (events_since w w') = (n + 1)%nat /\
  total_sleep (events_since w w') = 100 * Z.of_nat n /\
  committed w' = committed w.
Proof.
  intros Hrun.
  destruct (exhausted_run_resolves inp n w w' Hrun)
    as (Hret & Hcm & evs & Ht & Ha & Hs).
  rewrite (events_since_app _ _ _ Ht).
  split; [done|]. split; [lia|]. by split.
Qed.

End RetryBounds.

Lemma exhausted_run_3 :
  exists w',
    exhausted_run always_conflict tape0 (mkInput 1 200 "bob") 3 world0 w'.
Proof.
  eexists.
  eapply exhausted_again; [by vm_compute|reflexivity|].
  eapply exhausted_again; [by vm_compute|reflexivity|].
  eapply exhausted_again; [by vm_compute|reflexivity|].
  eapply exhausted_last; [by vm_compute|reflexivity].
Defined.

Lemma retry_exhausted_witness :
  exists w',
    initiateTransferWithRetry always_conflict tape0 (mkInput 1 200 "bob")
      3 world0 = (Ok None, w') /\
    attempts (events_since world0 w') = 4%nat.
Proof.
  destruct exhausted_run_3 as (w' & Hrun).
  destruct (retry_exhausted always_conflict tape0 (mkInput 1 200 "bob")
              3%nat world0 w' Hrun) as (H1 & H2 & _).
  exists w'. by split.
Defined.

Lemma retry_attempts_bounded_witness :
  attempts
    (events_since world0
       (snd (initiateTransferWithRetry always_conflict tape0
               (mkInput 1 200 "bob") 0 world0))) = 1%nat.
Proof.
  apply (retry_attempts_bounded always_conflict tape0 (mkInput 1 200 "bob")
           0 world0).
  lia.
Defined.

(** * Further properties of the listing *)

(** X9. A bound given as the empty string counts as not given: the filter
    is the one built without it. *)
Theorem buildFilter_empty_string (s e : option string) :
  buildFilter (mkQuery (Some "") e) = buildFilter (mkQuery None e) /\
  buildFilter (mkQuery s (Some "")) = buildFilter (mkQuery s None) /\
  buildFilter (mkQuery (Some "") (Some "")) = ∅.
Proof.
  rewrite !buildFilter_cases. simpl.
  destruct (truthy s), (truthy e); done.
Qed.

Section ListingSelection.

Variable timestamp : string -> Z.

Lemma sort_desc_perm (l : list Transfer) : sort_desc l ≡ₚ l.
Proof.
  induction l as [|t l IH]; simpl; [done|].
  rewrite <- IH at 2. generalize (sort_desc l). clear.
  intros l. induction l as [|x l IH]; simpl; [done|].
  destruct (createdAt x <=? createdAt t); [done|].
  rewrite IH. apply Permutation_swap.
Qed.

(** X10. Without pagination, [find] returns exactly the stored transfers
    that the viewer received, whatever their date, and those that the
    viewer sent and whose date satisfies the filter. *)
Theorem find_selection (u : User) (q : Query) (s : Store) (t : Transfer) :
  t ∈ records (find timestamp (mkOptions u q unpaged) s) <->
  t ∈ transfers s /\
  (user_id (receiver t) = user_id u \/
   (user_id (sender t) = user_id u /\
    in_range timestamp (buildFilter q) t = true)).
Proof.
  rewrite find_result. simpl.
  rewrite elem_of_sort_desc, list_elem_of_filter.
  unfold listed, sent_by, received_by.
  rewrite orb_true_iff, andb_true_iff, !bool_decide_eq_true. tauto.
Qed.

(** X12. When no bound is given, or only empty ones, [find] without
    pagination returns exactly the stored transfers in which the viewer is
    the sender or the receiver. *)
Theorem find_without_bounds (u : User) (q : Query) (s : Store) (t : Transfer) :
  truthy (startPeriodDatetime q) = false ->
  truthy (endPeriodDatetime q) = false ->
  (t ∈ records (find timestamp (mkOptions u q unpaged) s) <->
   t ∈ transfers s /\
   (user_id (sender t) = user_id u \/ user_id (receiver t) = user_id u)).
Proof.
  intros Hs He. rewrite find_result. simpl.
  rewrite elem_of_sort_desc, list_elem_of_filter.
  unfold listed, in_range, sent_by, received_by.
  rewrite buildFilter_cases, Hs, He. simpl. rewrite lookup_empty. simpl.
  rewrite orb_true_iff, !bool_decide_eq_true. tauto.
Qed.

(** X13. The page is never longer than the count, nor than [take] when
    [take] is not 0; a [take] of 0 puts no limit, as if none were given;
    a [skip] that reaches the count gives an empty page; and the count is
    that of the query without pagination. *)
Theorem find_page_bounds (u : User) (q : Query) (sk tk : option nat)
    (s : Store) :
  let r := find timestamp (mkOptions u q (mkPagination sk tk)) s in
  (length (records r) <= count r)%nat /\
  (forall n, tk = Some n -> (0 < n)%nat -> (length (records r) <= n)%nat) /\
  (tk = Some 0%nat ->
   records r
   = records (find timestamp (mkOptions u q (mkPagination sk None)) s)) /\
  (forall k, sk = Some k -> (count r <= k)%nat -> records r = []) /\
  count r = count (find timestamp (mkOptions u q unpaged) s).
Proof.
  cbv zeta. rewrite !find_result. simpl.
  set (sel := filter _ (transfers s)).
  assert (length (sort_desc sel) = length sel) as Hlen
    by (apply Permutation_length, sort_desc_perm).
  split; [|split; [|split; [|split; [|done]]]].
  - rewrite <- Hlen. apply sublist_length, page_sublist.
  - intros n -> Hn. unfold page. destruct n as [|n]; [lia|].
    destruct sk; rewrite length_take; lia.
  - by intros ->.
  - intros k -> Hk. unfold page.
    rewrite (drop_ge (sort_desc sel) k) by lia.
    destruct tk as [[|n]|]; [done|apply take_nil|done].
Qed.

(** X14. Consecutive pages fit together. When no two stored transfers
    have the same creation time, so that the order of the rows is settled,
    the page of [n] rows from offset [k] followed by the page of [m] rows
    from offset [k + n] is the page of [n + m] rows from offset [k], for
    [n] and [m] other than 0: no row is repeated or lost between pages. *)
Theorem find_pages_compose (u : User) (q : Query) (k n m : nat) (s : Store) :
  NoDup (map createdAt (transfers s)) ->
  (0 < n)%nat -> (0 < m)%nat ->
  records (find timestamp
             (mkOptions u q (mkPagination (Some k) (Some n))) s) ++
  records (find timestamp
             (mkOptions u q (mkPagination (Some (k + n)%nat) (Some m))) s)
  = records (find timestamp
               (mkOptions u q (mkPagination (Some k) (Some (n + m)%nat))) s).
Proof.
  intros _ Hn Hm. rewrite !find_result. simpl. unfold page.
  destruct n as [|n]; [lia|]. destruct m as [|m]; [lia|].
  change (S n + S m)%nat with (S (n + S m)).
  rewrite <- drop_drop.
  change (S (n + S m)) with (S n + S m)%nat. apply take_take_drop.
Qed.

(** X15. Without pagination the records are a rearrangement of the
    selected transfers: each one appears as often as it is stored, and the
    count is the number of records. *)
Theorem find_unpaged_complete (u : User) (q : Query) (s : Store) :
  let r := find timestamp (mkOptions u q unpaged) s in
  records r ≡ₚ
    filter (fun t => listed timestamp (user_id u) q t = true) (transfers s) /\
  count r = length (records r).
Proof.
  cbv zeta. rewrite find_result. simpl. split.
  - apply sort_desc_perm.
  - symmetry. apply Permutation_length, sort_desc_perm.
Qed.

End ListingSelection.

Lemma find_without_bounds_witness :
  t7 ∈ records (find seconds (mkOptions bob (mkQuery None (Some "")) unpaged)
                  store3).
Proof.
  apply (find_without_bounds seconds bob (mkQuery None (Some "")) store3 t7);
    [reflexivity|reflexivity|].
  split; [|by left].
  apply list_elem_of_In. simpl. tauto.
Defined.

Lemma find_pages_compose_witness :
  records (find seconds (mkOptions bob (mkQuery None None)
                           (mkPagination (Some 0%nat) (Some 1%nat))) store3) ++
  records (find seconds (mkOptions bob (mkQuery None None)
                           (mkPagination (Some 1%nat) (Some 2%nat))) store3)
  = records (find seconds (mkOptions bob (mkQuery None None)
                             (mkPagination (Some 0%nat) (Some 3%nat))) store3).
Proof.
  apply (find_pages_compose seconds bob (mkQuery None None) 0 1 2 store3);
    [|lia|lia].
  simpl. rewrite !NoDup_cons, !elem_of_cons, !elem_of_nil.
  intuition (try discriminate). apply NoDup_nil_2.
Defined.

(** * A transfer, then the listing *)

Section TransferThenListing.

Context {userService : UserService} {accountService : AccountService}.
Variable fault : nat -> Step -> option Error.
Variable tape : nat -> nat.
Variable timestamp : string -> Z.

(** X16. A transfer that an attempt returns is in the listing right away:
    in the receiver's, whatever the query, and in the sender's for every
    query whose date condition the transfer satisfies, in particular every
    query without bounds. *)
Theorem transfer_then_listed inp w t w' :
  initiateTransfer fault tape inp w = (Ok t, w') ->
  (forall q,
     t ∈ records (find timestamp (mkOptions (receiver t) q unpaged)
                    (committed w'))) /\
  (forall q, in_range timestamp (buildFilter q) t = true ->
     t ∈ records (find timestamp (mkOptions (sender t) q unpaged)
                    (committed w'))) /\
  (forall q, truthy (startPeriodDatetime q) = false ->
     truthy (endPeriodDatetime q) = false ->
     t ∈ records (find timestamp (mkOptions (sender t) q unpaged)
                    (committed w'))).
Proof.
  intros Hrun.
  destruct (attempt_success_inv fault tape inp w t w' Hrun)
    as (su & ru & sacc & s1 & racc & s2 & _ & _ & _ & _ & _ & Hw).
  assert (t ∈ transfers (committed w')) as Hin
    by (rewrite Hw; apply elem_of_insert_transfer).
  assert (forall u q,
            listed timestamp (user_id u) q t = true ->
            t ∈ records (find timestamp (mkOptions u q unpaged) (committed w')))
    as Hlisted.
  { intros u q Hl. rewrite find_result. simpl.
    apply elem_of_sort_desc, list_elem_of_filter. by split. }
  split; [|split].
  - intros q. apply Hlisted. unfold listed, received_by.
    rewrite bool_decide_eq_true_2 by done. apply orb_true_r.
  - intros q Hr. apply Hlisted. unfold listed, sent_by.
    rewrite Hr, bool_decide_eq_true_2 by done. done.
  - intros q Hs He. apply Hlisted. unfold listed, in_range, sent_by.
    rewrite buildFilter_cases, Hs, He. simpl. rewrite lookup_empty.
    rewrite bool_decide_eq_true_2 by done. done.
Qed.

End TransferThenListing.

Lemma transfer_then_listed_witness :
  exists t w',
    initiateTransfer no_fault tape0 (mkInput 1 200 "bob") world0 = (Ok t, w') /\
    t ∈ records (find seconds
                   (mkOptions (receiver t) (mkQuery (Some "2000") None) unpaged)
                   (committed w')).
Proof.
  destruct (initiateTransfer no_fault tape0 (mkInput 1 200 "bob") world0)
    as [[t|e] w'] eqn:E; [|by vm_compute in E].
  exists t, w'. split; [done|].
  apply (proj1 (transfer_then_listed no_fault tape0 seconds
                  (mkInput 1 200 "bob") world0 t w' E)).
Defined.

(** * Another request commits during an attempt *)

Ltac unfold_interleaved :=
  unfold initiateTransfer_interleaved, concurrent_commit, initiateTransfer,
    transaction, bind, userService_findByUserId, userService_findByUsername,
    accountService_debitAccount, accountService_creditAccount,
    randomstring_generate, transferRepo_create, manager_save, deref, ret,
    throw in *.

(** With no change made by others, the interleaved attempt is the
    attempt. *)
Lemma initiateTransfer_interleaved_alone
    {userService : UserService} {accountService : AccountService}
    fault tape inp w :
  initiateTransfer_interleaved fault tape (fun s => s) inp w
  = initiateTransfer fault tape inp w.
Proof.
  destruct w. unfold_interleaved. simpl.
  repeat (case_match; simplify_eq/=); reflexivity.
Qed.

(** On the ledger, the record keeps the balance that the lookup read,
    while the debit, and so [balanceAfter], starts from the balance that
    the other request has left. *)
Lemma interleaved_balance_snapshots fault tape other inp w t w' :
  initiateTransfer_interleaved fault tape other inp w = (Ok t, w') ->
  exists su b',
    findByUserId (inp_sender inp) (committed w) = Some su /\
    balanceBefore t = balance (account su) /\
    accounts (other (committed w)) !! acc_id (account su) = Some b' /\
    balanceAfter t = b' - amount t.
Proof.
  unfold_interleaved. intros Hrun.
  repeat (case_match; simplify_eq/=).
  eexists _, _. repeat split; eauto.
Qed.

(** C5 (defect). alice holds 500 and sends 200 to bob. After the lookup
    of alice, which is made without the manager, and before the debit,
    another request moves 100 from alice to bob and commits. The record
    is saved with [balanceBefore = 500], the balance that the lookup read,
    and [balanceAfter = 200], the balance that the debit returns: they do
    not differ by the amount, and [balanceBefore] is not the balance that
    the account held when it was debited (400). *)
Theorem stale_balance_before :
  let r := initiateTransfer_interleaved no_fault tape0 other_transfer
             (mkInput 1 200 "bob") world0 in
  accounts (other_transfer store0) !! 10 = Some 400 /\
  exists t,
    fst r = Ok t /\ t ∈ transfers (committed (snd r)) /\
    amount t = 200 /\ balanceBefore t = 500 /\ balanceAfter t = 200 /\
    balanceAfter t <> balanceBefore t - amount t /\
    accounts (committed (snd r)) !! 10 = Some 200.
Proof.
  split; [by vm_compute|].
  eexists. split; [by vm_compute|].
  split; [apply list_elem_of_In; vm_compute; tauto|].
  by vm_compute.
Qed.

(** * Tokens of a retried transfer *)

(** The bytes 250, 3, 255, 251, 17, 9 as a tape, and read back: a byte
    from 248 up is read back as 255. *)
Example tape_of_bytes_raw :
  map (raw (tape_of_bytes [250; 3; 255; 251; 17; 9]%nat)) (seq 0 6)
  = [255; 3; 255; 255; 17; 9]%nat.
Proof. by vm_compute. Qed.

(** One thrown-away byte among the thirteen of the first buffer: the
    twelve others spell the token. *)
Example generate_13_bytes :
  generate (tape_of_bytes [250; 1; 2; 3; 4; 5; 6; 7; 8; 9; 10; 11; 12]%nat)
    12 alphanumeric 0
  = (String.list_ascii_of_string "123456789abc", 13%nat).
Proof. by vm_compute. Qed.

(** With thrown-away bytes in between, more buffers are drawn: of 13, 6,
    3 and 2 bytes. *)
Example generate_4_buffers :
  generate tape1 12 alphanumeric 0
  = (String.list_ascii_of_string "3ahovCJQX4bi", 24%nat).
Proof. by vm_compute. Qed.

(** Two conflicts at commit, then a success: three references are offered
    to the store, each generated by its own attempt. *)
Example retry_three_references :
  omap (fun e => match e with EvSave r => Some r | _ => None end)
    (trace (snd (initiateTransferWithRetry (conflicts 2) tape1
                   (mkInput 1 200 "bob") 3 world0)))
  = ["3ahovCJQX4bi"; "pwDKRY5cjqxE"; "LSZ6dkryFMT0"].
Proof. by vm_compute. Qed.

Lemma conflict_run_2_tape1 :
  exists t w',
    conflict_run (conflicts 2) tape1 (mkInput 1 200 "bob") 2 world0 t w'.
Proof.
  eexists _, _.
  eapply run_conflict; [by vm_compute|reflexivity|].
  eapply run_conflict; [by vm_compute|reflexivity|].
  eapply run_success. by vm_compute.
Defined.

Lemma reference_fresh_per_attempt_witness :
  exists t w' w_last,
    conflict_run (conflicts 2) tape1 (mkInput 1 200 "bob") 2 world0 t w' /\
    initiateTransfer (conflicts 2) tape1 (mkInput 1 200 "bob") w_last
      = (Ok t, w') /\
    reference t = token_of_bytes (drawn tape1 (rng w_last) (rng w')) /\
    (forall ref, EvSave ref ∈ events_since world0 w_last ->
       exists p q, (rng world0 <= p)%nat /\ (p + 13 <= q)%nat /\
                   (q <= rng w_last)%nat /\
                   ref = token_of_bytes (drawn tape1 p q)).
Proof.
  destruct conflict_run_2_tape1 as (t & w' & Hrun).
  destruct (proj2 (proj2 (reference_fresh_per_attempt (conflicts 2) tape1
                            (mkInput 1 200 "bob")))
              2%nat world0 t w' Hrun) as (w_last & H1 & _ & H3 & H4).
  exists t, w', w_last. done.
Defined.
